(** * pdf-viewer-app: the object-store service and its HTTP handlers

    A shallow embedding of [src/service/s3.ts] and of the two route
    handlers of [src/index.tsx], with the properties of the specification
    stated and proved over it.

    Conventions of the embedding.
    - A JavaScript string is a [string]: one character per UTF-16 code
      unit, for code units below 256.
    - A JavaScript number that the program uses as a size, a length or a
      time value is an integer [Z]; NaN is [None] where it can arise.
    - An [async] function is a computation in the monad [M]: it reads the
      runtime (object store, HTTP endpoint, clock), threads the [World]
      (clock reads, calls issued, console lines) and either returns or
      throws. *)

From Stdlib Require Import ZArith NArith Bool List Ascii String Lia.
From Stdlib Require Import Sorting.Sorted Sorting.Permutation.
Import ListNotations.

Local Open Scope string_scope.
Local Open Scope list_scope.
Local Open Scope Z_scope.

(** ** JavaScript built-ins used by the program *)

Module JS.

(** The double-quote character, code 34. *)
Definition dquote : ascii := ascii_of_nat 34.

(** [if (s)] on a string: the empty string is falsy. *)
Definition truthy (s : string) : bool :=
  match s with
  | EmptyString => false
  | String _ _ => true
  end.

(** [String.prototype.toLowerCase] on one code unit below 256: the letters
    A-Z and the Latin-1 capitals (192-222 but for the multiplication sign
    215) move up by 32. *)
Definition lower_char (c : ascii) : ascii :=
  let n := N_of_ascii c in
  if ((65 <=? n) && (n <=? 90))%N then ascii_of_N (n + 32)
  else if ((192 <=? n) && (n <=? 222) && negb (n =? 215))%N then ascii_of_N (n + 32)
  else c.

Fixpoint toLowerCase (s : string) : string :=
  match s with
  | EmptyString => EmptyString
  | String c s' => String (lower_char c) (toLowerCase s')
  end.

(** [s.endsWith(suffix)]: some tail of [s] is [suffix]. *)
Fixpoint endsWith (s suffix : string) : bool :=
  (s =? suffix)%string ||
  match s with
  | EmptyString => false
  | String _ s' => endsWith s' suffix
  end.

(** [s.startsWith(p)]. *)
Definition startsWith (s p : string) : bool := String.prefix p s.

(** [s.split(sep)] for a one-character separator: the pieces between the
    separators, never an empty array. *)
Fixpoint split (sep : ascii) (s : string) : list string :=
  match s with
  | EmptyString => [EmptyString]
  | String c s' =>
      if Ascii.eqb c sep then EmptyString :: split sep s'
      else match split sep s' with
           | [] => [String c EmptyString]
           | piece :: pieces => String c piece :: pieces
           end
  end.

(** [arr.pop()] as a value: the last element, [undefined] on an empty
    array. *)
Fixpoint pop {A : Type} (arr : list A) : option A :=
  match arr with
  | [] => None
  | [x] => Some x
  | _ :: arr' => pop arr'
  end.

(** [s.replace(/c/g, '')]: every occurrence of the character is removed. *)
Fixpoint remove_all (c : ascii) (s : string) : string :=
  match s with
  | EmptyString => EmptyString
  | String d s' =>
      if Ascii.eqb d c then remove_all c s' else String d (remove_all c s')
  end.

Definition digit_char (d : Z) : ascii := ascii_of_N (48 + Z.to_N d).

(** The decimal digits of [n] written in front of [acc], at most [width]
    of them and at least one. *)
Fixpoint digits_of (width : nat) (n : Z) (acc : string) : string :=
  match width with
  | O => acc
  | S width' =>
      let acc' := String (digit_char (n mod 10)) acc in
      if n / 10 =? 0 then acc' else digits_of width' (n / 10) acc'
  end.

(** [n.toString()] for a non-negative integer below 10^21, where the
    result is the plain decimal numeral. *)
Definition toString (n : Z) : string := digits_of 21 n EmptyString.

(** A template literal value that may be [undefined]. *)
Definition template (v : option string) : string :=
  match v with
  | Some s => s
  | None => "undefined"
  end.

(** A [Date]: a time value in milliseconds since the epoch, or Invalid
    Date, whose time value is NaN. *)
Inductive Date : Type :=
  | DateOf (t : Z)
  | InvalidDate.

(** [d.getTime()]; [None] is NaN. *)
Definition getTime (d : Date) : option Z :=
  match d with
  | DateOf t => Some t
  | InvalidDate => None
  end.

(** [x - y] on numbers that may be NaN. *)
Definition sub (x y : option Z) : option Z :=
  match x, y with
  | Some a, Some b => Some (a - b)
  | _, _ => None
  end.

Section Sort.
Context {A : Type}.
(** The comparator's result; [None] is NaN. *)
Variable comparefn : A -> A -> option Z.

(** SortCompare of ECMA-262: a NaN result counts as +0. *)
Definition SortCompare (x y : A) : Z :=
  match comparefn x y with
  | Some v => v
  | None => 0
  end.

(** [Array.prototype.sort(comparefn)] for a consistent comparator, where
    the language fixes the result: the sort is stable, and every stable
    sort gives what this one gives, [x] going before the first element it
    does not compare greater than.  A comparator that answers NaN for some
    pair and not for all is not consistent; the order is then the
    engine's to choose and this function is not used for it (see
    [sort_by_lastModified]). *)
Fixpoint insert (x : A) (l : list A) : list A :=
  match l with
  | [] => [x]
  | y :: l' => if SortCompare x y <=? 0 then x :: l else y :: insert x l'
  end.

Fixpoint sort (l : list A) : list A :=
  match l with
  | [] => []
  | x :: l' => insert x (sort l')
  end.
End Sort.

(** [s.slice(n)]: [s] without its first [n] characters. *)
Fixpoint drop (n : nat) (s : string) : string :=
  match n, s with
  | O, _ => s
  | S n', String _ s' => drop n' s'
  | S _, EmptyString => EmptyString
  end.

Definition is_digit (c : ascii) : bool :=
  let n := N_of_ascii c in ((48 <=? n) && (n <=? 57))%N.

(** [parseInt(digits, 10)] on a run of decimal digits whose number is
    below 2^53, where the double the code gets is the number itself;
    above, the code's result is rounded to a double and this one is
    not. *)
Fixpoint parseInt_from (acc : Z) (s : string) : Z :=
  match s with
  | EmptyString => acc
  | String c s' =>
      if is_digit c then parseInt_from (10 * acc + Z.of_N (N_of_ascii c - 48)) s'
      else acc
  end.

Definition parseInt (s : string) : Z := parseInt_from 0 s.

(** The characters [encodeURIComponent] leaves as they are: letters,
    digits and the marks - _ . ! ~ * ' ( ). *)
Definition uri_unreserved (c : ascii) : bool :=
  let n := N_of_ascii c in
  (((65 <=? n) && (n <=? 90)) || ((97 <=? n) && (n <=? 122)) || is_digit c
   || (n =? 45) || (n =? 95) || (n =? 46) || (n =? 33) || (n =? 126)
   || (n =? 42) || (n =? 39) || (n =? 40) || (n =? 41))%N.

Definition hex_digit (n : N) : ascii :=
  if (n <? 10)%N then ascii_of_N (48 + n) else ascii_of_N (55 + n).

(** One byte as a percent escape, upper-case hexadecimal. *)
Definition percent (b : N) : string :=
  String "%" (String (hex_digit (b / 16)) (String (hex_digit (b mod 16)) EmptyString)).

(** [encodeURIComponent]: a code unit below 128 that is not unreserved is
    one escaped byte, one from 128 to 255 the two bytes of its UTF-8
    form. *)
Fixpoint encodeURIComponent (s : string) : string :=
  match s with
  | EmptyString => EmptyString
  | String c s' =>
      let n := N_of_ascii c in
      (if uri_unreserved c then String c EmptyString
       else if (n <? 128)%N then percent n
       else percent (192 + n / 64) ++ percent (128 + n mod 64))
      ++ encodeURIComponent s'
  end.

(** *** The regular expressions of [parseS3ListResponse]

    Each has the shape OPEN (capture) CLOSE.  A match is tried at every
    start position from left to right; at a start position the literal
    OPEN is read, then the capture, then the literal CLOSE. *)

(** A line terminator below 256: line feed and carriage return.  The dot
    of a pattern without the s flag does not match one. *)
Definition line_terminator (c : ascii) : bool :=
  let n := N_of_ascii c in ((n =? 10) || (n =? 13))%N.

(** The lazy capture followed by CLOSE, read at the start of [s]: the
    shortest run of characters the dot accepts after which CLOSE stands.
    The result is the capture and the text after CLOSE. *)
Fixpoint lazy_until (dotall : bool) (close s : string) : option (string * string) :=
  if String.prefix close s then Some (EmptyString, drop (String.length close) s)
  else match s with
       | EmptyString => None
       | String c s' =>
           if negb dotall && line_terminator c then None
           else match lazy_until dotall close s' with
                | Some (capture, rest) => Some (String c capture, rest)
                | None => None
                end
       end.

(** One attempt of OPEN (.*?) CLOSE at the start of [s]. *)
Definition match_lazy_here (dotall : bool) (open close s : string) : option (string * string) :=
  if String.prefix open s then lazy_until dotall close (drop (String.length open) s)
  else None.

(** [regex.exec(s)] for OPEN (.*?) CLOSE: the first start position with a
    match; the capture and the text after the match. *)
Fixpoint exec_lazy (dotall : bool) (open close s : string) : option (string * string) :=
  match match_lazy_here dotall open close s with
  | Some m => Some m
  | None =>
      match s with
      | EmptyString => None
      | String _ s' => exec_lazy dotall open close s'
      end
  end.

(** The longest run of digits at the start of [s], and the rest. *)
Fixpoint span_digits (s : string) : string * string :=
  match s with
  | EmptyString => (EmptyString, EmptyString)
  | String c s' =>
      if is_digit c then let (ds, rest) := span_digits s' in (String c ds, rest)
      else (EmptyString, s)
  end.

(** One attempt of OPEN (\d+) CLOSE at the start of [s]: the greedy run
    of digits is not empty and CLOSE follows it (a shorter run is followed
    by a digit, never by CLOSE, when CLOSE starts with no digit). *)
Definition match_digits_here (open close s : string) : option string :=
  if String.prefix open s then
    let (ds, rest) := span_digits (drop (String.length open) s) in
    if truthy ds && String.prefix close rest then Some ds else None
  else None.

Fixpoint exec_digits (open close s : string) : option string :=
  match match_digits_here open close s with
  | Some ds => Some ds
  | None =>
      match s with
      | EmptyString => None
      | String _ s' => exec_digits open close s'
      end
  end.

(** The loop [while ((match = regex.exec(s)) !== null)] of a global
    pattern OPEN (.*?) CLOSE: each match starts where the one before
    ended.  A match is not empty, so the length of the text bounds the
    number of rounds. *)
Fixpoint exec_all_from (rounds : nat) (dotall : bool) (open close s : string) : list string :=
  match rounds with
  | O => []
  | S rounds' =>
      match exec_lazy dotall open close s with
      | None => []
      | Some (capture, rest) => capture :: exec_all_from rounds' dotall open close rest
      end
  end.

Definition exec_all (dotall : bool) (open close s : string) : list string :=
  exec_all_from (String.length s) dotall open close s.

End JS.

(** ** Data model *)

Import JS.

(** [S3File] of [src/service/s3.ts]. *)
Record S3File : Type := mkS3File {
  key : string;
  lastModified : Date;
  size : Z;
  etag : string
}.

(** An entry of [Contents] in the SDK's [ListObjectsV2] output: every
    field is optional.  The SDK builds [LastModified] from a timestamp it
    has parsed and rejects a malformed one, so a [LastModified] that is
    present carries a time value. *)
Record _Object : Type := mkObject {
  Key : option string;
  LastModified : option Z;
  Size : option Z;
  ETag : option string
}.

Record ListObjectsV2Output : Type := mkListOutput {
  Contents : option (list _Object)
}.

(** The SDK's [GetObject] output: the body's bytes and the declared
    length, both optional. *)
Record GetObjectOutput : Type := mkGetOutput {
  Body : option string;
  ContentLength : option Z
}.

(** What [fetch] resolves to. *)
Record FetchResponse : Type := mkFetchResponse {
  ok : bool;
  fetch_status : Z;
  statusText : string;
  text : string
}.

(** A JSON value of a response body. *)
Inductive JsonValue : Type :=
  | JString (s : string)
  | JNumber (n : Z)
  | JFiles (files : list S3File).

Inductive ResponseBody : Type :=
  | JsonBody (fields : list (string * JsonValue))
  | StreamBody (bytes : string).

(** A [Response]: status, the headers of its init object in the order
    written, and the body. *)
Record Response : Type := mkResponse {
  status : Z;
  headers : list (string * string);
  body : ResponseBody
}.

(** A request, as far as the handlers read it: the query parameters of
    its URL, decoded, in the order written. *)
Record Request : Type := mkRequest {
  searchParams : list (string * string)
}.

(** ** Effects *)

(** A call that leaves the process. *)
Inductive StoreCall : Type :=
  | ListObjectsV2Command (Bucket : string) (Prefix : option string)
  | GetObjectCommand (Bucket : string) (Key : string)
  | FetchCall (url : string).

(** What an awaited call or a function body comes to: a value, or a
    thrown [Error] with its message. *)
Inductive Outcome (A : Type) : Type :=
  | Return (a : A)
  | Throw (message : string).
Arguments Return {A} a.
Arguments Throw {A} message.

(** The world outside the program: how the store answers a command, how
    the public endpoint answers a URL, what the n-th [new Date()] reads,
    how [new Date(text)] parses, and the order in which the engine's sort
    leaves an array when the comparator is not consistent: the language
    leaves that order to the engine, whose sort rearranges the elements
    it is given. *)
Record Runtime : Type := mkRuntime {
  s3_list : string -> option string -> Outcome ListObjectsV2Output;
  s3_get : string -> string -> Outcome GetObjectOutput;
  http_fetch : string -> Outcome FetchResponse;
  now : nat -> Z;
  Date_parse : string -> Date;
  engine_order : forall files : list S3File,
      { arranged : list S3File | Permutation arranged files }
}.

(** The state a request threads: clock reads so far, calls issued (oldest
    first) and the lines written with [console.error]. *)
Record World : Type := mkWorld {
  ticks : nat;
  calls : list StoreCall;
  console : list string
}.

Definition M (A : Type) : Type := World -> Outcome A * World.

Definition ret {A : Type} (a : A) : M A := fun w => (Return a, w).

Definition throw {A : Type} (message : string) : M A := fun w => (Throw message, w).

Definition bind {A B : Type} (m : M A) (k : A -> M B) : M B :=
  fun w =>
    match m w with
    | (Return a, w') => k a w'
    | (Throw e, w') => (Throw e, w')
    end.

(** [try { m } catch (error) { handler }]. *)
Definition try_catch {A : Type} (m : M A) (handler : string -> M A) : M A :=
  fun w =>
    match m w with
    | (Return a, w') => (Return a, w')
    | (Throw e, w') => handler e w'
    end.

Declare Scope js_scope.
Delimit Scope js_scope with js.
Notation "x <- m ;; k" := (bind m (fun x => k))
  (at level 61, m at next level, right associativity) : js_scope.
Notation "m ;;; k" := (bind m (fun _ => k))
  (at level 61, right associativity) : js_scope.
Local Open Scope js_scope.

(** [arr.map(f)] for a callback with effects: the elements are visited
    in order, each result after the effects of the ones before. *)
Fixpoint mapM {A B : Type} (f : A -> M B) (arr : list A) : M (list B) :=
  match arr with
  | [] => ret []
  | element :: arr' =>
      bind (f element) (fun mapped =>
      bind (mapM f arr') (fun others => ret (mapped :: others)))
  end.

Definition console_error (line : string) : M unit :=
  fun w => (Return tt, mkWorld (ticks w) (calls w) (console w ++ [line])).

Definition record_call (c : StoreCall) : M unit :=
  fun w => (Return tt, mkWorld (ticks w) (calls w ++ [c]) (console w)).

Definition lift {A : Type} (o : Outcome A) : M A := fun w => (o, w).

(** *** Building a response *)

(** HTTP white space: tab, line feed, carriage return, space. *)
Definition http_whitespace (c : ascii) : bool :=
  let n := N_of_ascii c in ((n =? 9) || (n =? 10) || (n =? 13) || (n =? 32))%N.

Fixpoint strip_leading (s : string) : string :=
  match s with
  | EmptyString => EmptyString
  | String c s' => if http_whitespace c then strip_leading s' else s
  end.

Fixpoint strip_trailing (s : string) : string :=
  match s with
  | EmptyString => EmptyString
  | String c s' =>
      match strip_trailing s' with
      | EmptyString => if http_whitespace c then EmptyString else String c EmptyString
      | kept => String c kept
      end
  end.

(** A header value as [Headers] stores it: without the white space at
    its ends. *)
Definition normalize_value (v : string) : string := strip_trailing (strip_leading v).

(** A header value [Headers] accepts: no NUL, line feed or carriage
    return in it.  (A code unit from 256 on is refused too; the strings
    of this model have none.) *)
Fixpoint header_value (v : string) : bool :=
  match v with
  | EmptyString => true
  | String c v' =>
      let n := N_of_ascii c in
      negb ((n =? 0) || (n =? 10) || (n =? 13))%N && header_value v'
  end.

(** [new Response(body, { headers })] for headers with valid names:
    status 200 and the headers with their values normalized; a TypeError
    when a value is not accepted. *)
Definition new_Response (body : ResponseBody) (init : list (string * string)) : M Response :=
  let stored := map (fun h => (fst h, normalize_value (snd h))) init in
  if forallb (fun h => header_value (snd h)) stored
  then ret (mkResponse 200 stored body)
  else throw "Invalid header value".

(** ** The object-store service: [src/service/s3.ts] *)

Section Service.
Variable rt : Runtime.

(** [new Date()]: one more read of the clock. *)
Definition new_Date : M Date :=
  fun w => (Return (DateOf (now rt (ticks w))),
            mkWorld (S (ticks w)) (calls w) (console w)).

(** [await s3Client.send(command)]. *)
Definition send_list (Bucket : string) (Prefix : option string) : M ListObjectsV2Output :=
  record_call (ListObjectsV2Command Bucket Prefix) ;;;
  lift (s3_list rt Bucket Prefix).

Definition send_get (Bucket Key : string) : M GetObjectOutput :=
  record_call (GetObjectCommand Bucket Key) ;;;
  lift (s3_get rt Bucket Key).

(** [await fetch(url, ...)]. *)
Definition fetch (url : string) : M FetchResponse :=
  record_call (FetchCall url) ;;;
  lift (http_fetch rt url).

(** [key.toLowerCase().endsWith('.pdf')]. *)
Definition has_pdf_extension (k : string) : bool :=
  endsWith (toLowerCase k) ".pdf".

(** The filter of [listPDFFiles]:
    [obj => obj.Key && obj.Key.toLowerCase().endsWith('.pdf')]. *)
Definition pdf_object (obj : _Object) : bool :=
  match Key obj with
  | Some k => truthy k && has_pdf_extension k
  | None => false
  end.

(** [obj.ETag?.replace(..., '') || ''], the pattern being the global
    one of a double quote. *)
Definition etag_of (obj : _Object) : string :=
  match ETag obj with
  | Some e =>
      let stripped := remove_all dquote e in
      if truthy stripped then stripped else EmptyString
  | None => EmptyString
  end.

(** [obj.Size || 0]. *)
Definition size_of (obj : _Object) : Z :=
  match Size obj with
  | Some n => if n =? 0 then 0 else n
  | None => 0
  end.

(** The map of [listPDFFiles].  [obj.Key!] is read after the filter has
    seen a key; the empty string stands for the unreachable case. *)
Definition to_S3File (obj : _Object) : M S3File :=
  lm <- match LastModified obj with
        | Some t => ret (DateOf t)
        | None => new_Date
        end ;;
  ret {| key := match Key obj with Some k => k | None => EmptyString end;
         lastModified := lm;
         size := size_of obj;
         etag := etag_of obj |}.

(** [(a, b) => b.lastModified.getTime() - a.lastModified.getTime()].
    Time values stay below 2^54 in size, where the sign of the double
    difference is the sign of the exact one. *)
Definition by_lastModified_desc (a b : S3File) : option Z :=
  sub (getTime (lastModified b)) (getTime (lastModified a)).

(** Every file the map makes carries a time value, the object's or the
    clock's, so the comparator is consistent on them and [sort] is the
    engine's sort. *)
Definition listPDFFiles (bucketName prefix : string) : M (list S3File) :=
  try_catch
    (response <- send_list bucketName (if truthy prefix then Some prefix else None) ;;
     match Contents response with
     | None => ret []
     | Some contents =>
         files <- mapM to_S3File (filter pdf_object contents) ;;
         ret (sort by_lastModified_desc files)
     end)
    (fun _ =>
       console_error "Error listing S3 files:" ;;;
       throw "Failed to list files from S3").

(** The init headers of the streamed response. *)
Definition stream_headers (key : string) (ContentLength : option Z) : list (string * string) :=
  [ ("Content-Type", "application/pdf");
    ("Content-Disposition",
      ("inline; filename=" ++ String dquote (template (pop (split "/" key)))
                           ++ String dquote EmptyString)%string);
    ("Cache-Control", "public, max-age=3600");
    ("Content-Length",
      match ContentLength with
      | Some n => let s := toString n in if truthy s then s else EmptyString
      | None => EmptyString
      end) ].

Definition getS3FileStream (bucketName key : string) : M Response :=
  try_catch
    (response <- send_get bucketName key ;;
     match Body response with
     | None => throw "No file content received from S3"
     | Some stream =>
         new_Response (StreamBody stream) (stream_headers key (ContentLength response))
     end)
    (fun _ =>
       console_error "Error streaming S3 file:" ;;;
       throw "Failed to stream file from S3").

(** One [Contents] block of the XML text read with the four patterns
    for Key, LastModified, Size and ETag (the ETag pattern wants the
    value between double quotes); the block gives a file when the four
    captures are there and none is the empty string. *)
Definition parse_content (content : string) : list S3File :=
  let keyMatch := exec_lazy false "<Key>" "</Key>" content in
  let lastModifiedMatch := exec_lazy false "<LastModified>" "</LastModified>" content in
  let sizeMatch := exec_digits "<Size>" "</Size>" content in
  let etagMatch :=
    exec_lazy false ("<ETag>" ++ String dquote EmptyString)
                    (String dquote "</ETag>") content in
  match keyMatch, lastModifiedMatch, sizeMatch, etagMatch with
  | Some (k, _), Some (lm, _), Some sz, Some (e, _) =>
      if truthy k && truthy lm && truthy sz && truthy e then
        [ {| key := k;
             lastModified := Date_parse rt lm;
             size := parseInt sz;
             etag := e |} ]
      else []
  | _, _, _, _ => []
  end.

(** The loop over the matches of the global pattern of a [Contents]
    block, pushing one file per accepted block. *)
Definition parseS3ListResponse (xmlText : string) : list S3File :=
  flat_map parse_content (exec_all true "<Contents>" "</Contents>" xmlText).

Definition list_url (bucketName prefix : string) : string :=
  "https://" ++ bucketName ++ ".s3.amazonaws.com/?list-type=2"
  ++ (if truthy prefix then "&prefix=" ++ encodeURIComponent prefix else EmptyString).

(** The timestamp of the file is a time value, not Invalid Date. *)
Definition has_time (file : S3File) : bool :=
  match lastModified file with
  | DateOf _ => true
  | InvalidDate => false
  end.

(** [files.sort(comparator)] with the comparator by timestamp, on files
    that may hold Invalid Date: the stable sort when every timestamp is a
    time value; otherwise the comparator answers NaN for some pairs and
    the order is the engine's. *)
Definition sort_by_lastModified (files : list S3File) : list S3File :=
  if forallb has_time files then sort by_lastModified_desc files
  else proj1_sig (engine_order rt files).

Definition listPDFFilesSimple (bucketName prefix : string) : M (list S3File) :=
  try_catch
    (response <- fetch (list_url bucketName prefix) ;;
     if negb (ok response) then
       throw ("S3 API error: " ++ toString (fetch_status response) ++ " " ++ statusText response)
     else
       let files := parseS3ListResponse (text response) in
       ret (sort_by_lastModified
              (filter (fun file => has_pdf_extension (key file)) files)))
    (fun _ =>
       console_error "Error listing S3 files:" ;;;
       throw "Failed to list files from S3").

(** [encodeURIComponent(key)] in the object's public URL. *)
Definition object_url (bucketName key : string) : string :=
  "https://" ++ bucketName ++ ".s3.amazonaws.com/" ++ encodeURIComponent key.

Definition getS3FileStreamSimple (bucketName key : string) : M Response :=
  try_catch
    (response <- fetch (object_url bucketName key) ;;
     if negb (ok response) then
       throw ("S3 API error: " ++ toString (fetch_status response) ++ " " ++ statusText response)
     else
       new_Response (StreamBody (text response))
         [ ("Content-Type", "application/pdf");
           ("Content-Disposition",
             ("inline; filename=" ++ String dquote (template (pop (split "/" key)))
                                  ++ String dquote EmptyString)%string);
           ("Cache-Control", "public, max-age=3600") ])
    (fun _ =>
       console_error "Error streaming S3 file:" ;;;
       throw "Failed to stream file from S3").

(** ** The route handlers: [src/index.tsx] *)

(** [Response.json(data, { status })]. *)
Definition Response_json (fields : list (string * JsonValue)) (status : Z) : Response :=
  mkResponse status [] (JsonBody fields).

(** [url.searchParams.get(name)]: the first value under the name, [null]
    when there is none. *)
Fixpoint searchParams_get (name : string) (params : list (string * string)) : option string :=
  match params with
  | [] => None
  | (n, v) :: params' => if (n =? name)%string then Some v else searchParams_get name params'
  end.

(** GET /api/file/list. *)
Definition GET_file_list (req : Request) : M Response :=
  try_catch
    (let prefix :=
       match searchParams_get "prefix" (searchParams req) with
       | Some p => if truthy p then p else EmptyString
       | None => EmptyString
       end in
     files <- listPDFFiles "alba-admin" prefix ;;
     ret (Response_json [("files", JFiles files);
                         ("count", JNumber (Z.of_nat (List.length files)))] 200))
    (fun _ =>
       console_error "Error listing files:" ;;;
       ret (Response_json [("error", JString "Failed to list PDF files")] 500)).

(** GET /api/file/get. *)
Definition GET_file_get (req : Request) : M Response :=
  try_catch
    (match searchParams_get "key" (searchParams req) with
     | None => ret (Response_json [("error", JString "File key is required")] 400)
     | Some key =>
         if negb (truthy key) then
           ret (Response_json [("error", JString "File key is required")] 400)
         else getS3FileStream "alba-admin" key
     end)
    (fun _ =>
       console_error "Error getting file:" ;;;
       ret (Response_json [("error", JString "Failed to get PDF file")] 500)).
End Service.

(** ** The object store *)

(** Modelled from the spec: the external object store, which is no code
    of this repository.  The glossary has it store objects addressed by a
    key and expose list-by-prefix and get-by-key; section 1 has the
    listing stop at the store's default page, which the program never
    asks to continue.  An object carries what StoredFile reports of it
    and its bytes; the ETag is kept as the store reports it, between
    double quotes. *)
Record StoredObject : Type := mkStored {
  stored_key : string;
  stored_lastModified : Z;
  stored_size : Z;
  stored_etag : string;
  stored_bytes : string
}.

(** A store state: the objects of the bucket, in the order the store
    enumerates them. *)
Definition Store : Type := list StoredObject.

(** The store's default page: a list command that sets no page size, as
    the one [listPDFFiles] sends, is answered with at most this many
    objects. *)
Definition default_page : nat := 1000.

Definition listed (o : StoredObject) : _Object :=
  {| Key := Some (stored_key o);
     LastModified := Some (stored_lastModified o);
     Size := Some (stored_size o);
     ETag := Some (stored_etag o) |}.

Definition under_prefix (Prefix : option string) (o : StoredObject) : bool :=
  match Prefix with
  | Some p => startsWith (stored_key o) p
  | None => true
  end.

(** List-by-prefix: the first page of the objects whose key starts with
    the prefix; no [Contents] at all when there is none. *)
Definition store_list (st : Store) (Bucket : string) (Prefix : option string)
  : Outcome ListObjectsV2Output :=
  match firstn default_page (filter (under_prefix Prefix) st) with
  | [] => Return {| Contents := None |}
  | page => Return {| Contents := Some (map listed page) |}
  end.

Definition store_find (st : Store) (k : string) : option StoredObject :=
  find (fun o => (stored_key o =? k)%string) st.

(** Get-by-key: the bytes and their length, or an error for a key the
    store does not hold. *)
Definition store_get (st : Store) (Bucket Key : string) : Outcome GetObjectOutput :=
  match store_find st Key with
  | Some o => Return {| Body := Some (stored_bytes o);
                        ContentLength := Some (Z.of_nat (String.length (stored_bytes o))) |}
  | None => Throw "NoSuchKey"
  end.

(** *** Timestamps as text *)

(** [n] in [width] decimal digits, zero-padded. *)
Fixpoint pad (width : nat) (n : Z) : string :=
  match width with
  | O => EmptyString
  | S width' => pad width' (n / 10) ++ String (digit_char (n mod 10)) EmptyString
  end.

(** Year, month and day of a day number counted from 1970-01-01, in the
    proleptic Gregorian calendar. *)
Definition civil_from_days (days : Z) : Z * Z * Z :=
  let z := days + 719468 in
  let era := z / 146097 in
  let doe := z - era * 146097 in
  let yoe := (doe - doe / 1460 + doe / 36524 - doe / 146096) / 365 in
  let doy := doe - (365 * yoe + yoe / 4 - yoe / 100) in
  let mp := (5 * doy + 2) / 153 in
  let d := doy - (153 * mp + 2) / 5 + 1 in
  let m := if mp <? 10 then mp + 3 else mp - 9 in
  let y := yoe + era * 400 in
  ((if m <=? 2 then y + 1 else y), m, d).

Definition days_from_civil (y m d : Z) : Z :=
  let y' := if m <=? 2 then y - 1 else y in
  let era := y' / 400 in
  let yoe := y' - era * 400 in
  let mp := if m >? 2 then m - 3 else m + 9 in
  let doy := (153 * mp + 2) / 5 + d - 1 in
  let doe := yoe * 365 + yoe / 4 - yoe / 100 + doy in
  era * 146097 + doe - 719468.

(** The text of a timestamp as the store's listings show it: the UTC
    form YYYY-MM-DDTHH:mm:ss.sssZ of a time value (years 0 to 9999). *)
Definition toISOString (t : Z) : string :=
  let days := t / 86400000 in
  let ms := t mod 86400000 in
  let '(y, m, d) := civil_from_days days in
  pad 4 y ++ "-" ++ pad 2 m ++ "-" ++ pad 2 d ++ "T"
  ++ pad 2 (ms / 3600000) ++ ":" ++ pad 2 (ms / 60000 mod 60) ++ ":"
  ++ pad 2 (ms / 1000 mod 60) ++ "." ++ pad 3 (ms mod 1000) ++ "Z".

(** The characters of [s] from [from], [len] of them, as a number; [None]
    when one is no digit or the text is too short. *)
Definition digits_at (from len : nat) (s : string) : option Z :=
  let piece := substring from len s in
  if (String.length piece =? len)%nat && forallb is_digit (list_ascii_of_string piece)
  then Some (parseInt piece) else None.

Definition char_at (n : nat) (s : string) (c : ascii) : bool :=
  match get n s with
  | Some d => Ascii.eqb c d
  | None => false
  end.

(** [new Date(text)] of an engine on the two UTC forms
    YYYY-MM-DDTHH:mm:ss.sssZ and YYYY-MM-DDTHH:mm:ssZ with fields in
    range.  It is the parser of the scenario runtimes, whose timestamps
    have the first form; the other forms of the date-time format, and the
    texts an engine reads beyond that format, are Invalid Date here though
    an engine may read them. *)
Definition iso_Date_parse (s : string) : Date :=
  let milliseconds :=
    if (String.length s =? 24)%nat && char_at 19 s "." && char_at 23 s "Z"
    then digits_at 20 3 s
    else if (String.length s =? 20)%nat && char_at 19 s "Z" then Some 0
    else None in
  match digits_at 0 4 s, digits_at 5 2 s, digits_at 8 2 s,
        digits_at 11 2 s, digits_at 14 2 s, digits_at 17 2 s, milliseconds with
  | Some y, Some m, Some d, Some hh, Some mm, Some ss, Some ms =>
      if char_at 4 s "-" && char_at 7 s "-" && char_at 10 s "T"
         && char_at 13 s ":" && char_at 16 s ":"
         && (1 <=? m) && (m <=? 12) && (1 <=? d) && (d <=? 31)
         && (hh <=? 23) && (mm <=? 59) && (ss <=? 59)
      then DateOf (days_from_civil y m d * 86400000
                   + hh * 3600000 + mm * 60000 + ss * 1000 + ms)
      else InvalidDate
  | _, _, _, _, _, _, _ => InvalidDate
  end.

(** *** The listing as XML *)

(** One element: the tag around the value, nothing when the value is
    missing. *)
Definition xml_field (tag : string) (value : option string) : string :=
  match value with
  | Some v => "<" ++ tag ++ ">" ++ v ++ "</" ++ tag ++ ">"
  | None => EmptyString
  end.

Definition xml_content (obj : _Object) : string :=
  xml_field "Key" (Key obj)
  ++ xml_field "LastModified" (option_map toISOString (LastModified obj))
  ++ xml_field "ETag" (ETag obj)
  ++ xml_field "Size" (option_map toString (Size obj))
  ++ "<StorageClass>STANDARD</StorageClass>".

Definition xml_prologue : string :=
  "<?xml version='1.0' encoding='UTF-8'?>"
  ++ "<ListBucketResult xmlns='http://s3.amazonaws.com/doc/2006-03-01/'>"
  ++ "<IsTruncated>false</IsTruncated>".

Definition xml_epilogue : string := "</ListBucketResult>".

Fixpoint xml_blocks (objs : list _Object) : string :=
  match objs with
  | [] => xml_epilogue
  | obj :: objs' => "<Contents>" ++ xml_content obj ++ "</Contents>" ++ xml_blocks objs'
  end.

(** A listing written raw: one [Contents] element per object with the
    elements Key, LastModified, ETag and Size that the object has, each
    value written as it is between its tags.  This is the layout the
    patterns of [parseS3ListResponse] are written for, not an XML writer:
    nothing is escaped, so the text is the XML of the listing only when no
    value holds an ampersand or a less-than sign, and it is one XML text
    of the listing among several: a writer may as well write the double
    quotes of an ETag as the entity quot, and from a text without a
    double quote the patterns read no file.  Neither the repository nor
    its specification fixes the layout the endpoint uses. *)
Definition xml_of_listing (contents : option (list _Object)) : string :=
  xml_prologue ++ xml_blocks (match contents with Some objs => objs | None => [] end).

(** ** Runtimes *)

(** The runtime of a process whose store is in state [st]; the bucket has
    no public endpoint. *)
Definition store_runtime (st : Store) (clock : nat -> Z) : Runtime :=
  {| s3_list := store_list st;
     s3_get := store_get st;
     http_fetch := fun _ => Throw "fetch failed";
     now := clock;
     Date_parse := iso_Date_parse;
     engine_order := fun files => exist _ files (Permutation_refl files) |}.

(** A runtime in which a list request is answered with the listing
    [contents], by the SDK as it is and by the public endpoint as the raw
    text of [xml_of_listing]. *)
Definition listing_runtime (contents : option (list _Object)) (clock : nat -> Z) : Runtime :=
  {| s3_list := fun _ _ => Return {| Contents := contents |};
     s3_get := fun _ _ => Throw "NoSuchKey";
     http_fetch := fun _ => Return {| ok := true; fetch_status := 200;
                                      statusText := "OK";
                                      text := xml_of_listing contents |};
     now := clock;
     Date_parse := iso_Date_parse;
     engine_order := fun files => exist _ files (Permutation_refl files) |}.

(** The world at the start of a request. *)
Definition initial_world : World := mkWorld 0 [] [].

(** A GET request with the given query parameters. *)
Definition GET (params : list (string * string)) : Request := mkRequest params.

(** ** Vocabulary of the specification *)

(** A key ends with the extension .pdf, letter case aside. *)
Definition ends_with_pdf (k : string) : Prop :=
  exists stem e1 e2 e3,
    k = (stem ++ String "." (String e1 (String e2 (String e3 EmptyString))))%string
    /\ (e1 = "p" \/ e1 = "P")%char
    /\ (e2 = "d" \/ e2 = "D")%char
    /\ (e3 = "f" \/ e3 = "F")%char.

(** [a] was modified no earlier than [b]; both carry a time value. *)
Definition newer_or_same (a b : S3File) : Prop :=
  exists ta tb,
    lastModified a = DateOf ta /\ lastModified b = DateOf tb /\ tb <= ta.

(** Most recent first: every entry is no older than every later one. *)
Definition non_increasing (files : list S3File) : Prop :=
  StronglySorted newer_or_same files.

(** The prefix a list command carries for a given [prefix] argument:
    [prefix || undefined]. *)
Definition command_prefix (prefix : string) : option string :=
  if truthy prefix then Some prefix else None.

(** A value between double quotes. *)
Definition quoted (v : string) : string :=
  String dquote (v ++ String dquote EmptyString).

(** No character of [s] is [c]. *)
Fixpoint without (c : ascii) (s : string) : bool :=
  match s with
  | EmptyString => true
  | String d s' => negb (Ascii.eqb d c) && without c s'
  end.

(** [seg] is the last of the pieces of [k] between slashes. *)
Definition last_segment (k seg : string) : Prop :=
  without "/" seg = true
  /\ (k = seg \/ exists dir, k = (dir ++ String "/" seg)%string).

(** A file whose [lastModified] carries a time value. *)
Definition dated (f : S3File) : Prop := exists t, lastModified f = DateOf t.

(** What the map of [listPDFFiles] makes of an object whose key is [k]:
    the fields of [f] but for a timestamp the clock supplies. *)
Definition file_of_object (obj : _Object) (f : S3File) : Prop :=
  Key obj = Some (key f)
  /\ size f = size_of obj
  /\ etag f = etag_of obj
  /\ dated f
  /\ (forall t, LastModified obj = Some t -> lastModified f = DateOf t).

(** The entries of a list response, none when [Contents] is missing. *)
Definition contents_of (response : ListObjectsV2Output) : list _Object :=
  match Contents response with
  | Some objs => objs
  | None => []
  end.

(** ** Scenarios *)

(** A clock that reads one millisecond more at every read, from the start
    of 2024. *)
Definition ticking : nat -> Z := fun n => 1704067200000 + Z.of_nat n.

(** A listing with a PDF, an upper-case PDF without timestamp, size or
    ETag, a text file and a newer PDF. *)
Definition mixed_listing : list _Object :=
  [ mkObject (Some "a/old.pdf") (Some 1000) (Some 10) (Some (quoted "abc123"));
    mkObject (Some "b/BARE.PDF") None None None;
    mkObject (Some "a/notes.txt") (Some 5000) (Some 1) (Some (quoted "ff"));
    mkObject (Some "new.pdf") (Some 9000) (Some 0) (Some (quoted "0f-2")) ].

(** An object whose ETag has a double quote inside the quoted value. *)
Definition inner_quote_listing : list _Object :=
  [ mkObject (Some "a.pdf") (Some 1000) (Some 10)
             (Some (quoted ("x" ++ String dquote "y"))) ].


(** A runtime whose store answers every get with a body and no declared
    length. *)
Definition unsized_runtime : Runtime :=
  {| s3_list := fun _ _ => Return {| Contents := None |};
     s3_get := fun _ _ => Return {| Body := Some "%PDF-1.7"; ContentLength := None |};
     http_fetch := fun _ => Throw "fetch failed";
     now := ticking;
     Date_parse := iso_Date_parse;
     engine_order := fun files => exist _ files (Permutation_refl files) |}.

(** The store of the scenarios of the specification: reports/q1.pdf of
    2048 bytes, modified at the start of 2024, and reports/q1.txt. *)
Definition q1_pdf (etag bytes : string) : StoredObject :=
  mkStored "reports/q1.pdf" 1704067200000 2048 etag bytes.

Definition q1_txt (modified size : Z) (etag bytes : string) : StoredObject :=
  mkStored "reports/q1.txt" modified size etag bytes.

Definition reports_store : Store :=
  [ q1_pdf (quoted "abc123") "%PDF-1.7"; q1_txt 1704067200001 5 (quoted "ff") "notes" ].

(** The store has nothing to stream for the key: the get call throws or
    answers without a body. *)
Definition no_body (rt : Runtime) (bucketName k : string) : Prop :=
  match s3_get rt bucketName k with
  | Return out => Body out = None
  | Throw _ => True
  end.

(** The JSON body with the one field [error]. *)
Definition error_body (message : string) : ResponseBody :=
  JsonBody [("error", JString message)].


(** The entry [listPDFFiles] makes of a stored object. *)
Definition stored_file (o : StoredObject) : S3File :=
  {| key := stored_key o;
     lastModified := DateOf (stored_lastModified o);
     size := size_of (listed o);
     etag := etag_of (listed o) |}.

(** The files of a run of a listing function, none when it threw. *)
Definition entries (run : Outcome (list S3File) * World) : list S3File :=
  match fst run with
  | Return files => files
  | Throw _ => []
  end.

(** A store of a thousand and one PDFs: a/0000.pdf to a/0999.pdf, then
    z/last.pdf. *)
Definition big_store : Store :=
  map (fun i => mkStored ("a/" ++ pad 4 (Z.of_nat i) ++ ".pdf") 1704067200000 1
                         (quoted "00") EmptyString)
      (seq 0 1000)
  ++ [ mkStored "z/last.pdf" 1704067200000 1 (quoted "ff") EmptyString ].


(** ** Text between tags *)

(** [pat] and [u] differ at a position both have: [pat] is no prefix of
    [u], however [u] is continued. *)
Fixpoint clash (pat u : string) : bool :=
  match pat, u with
  | String a pat', String b u' => if Ascii.eqb a b then clash pat' u' else true
  | _, _ => false
  end.

(** No position of [s] starts an occurrence of [pat], whatever follows
    [s]. *)
Fixpoint free (pat s : string) : bool :=
  match s with
  | EmptyString => true
  | String _ s' => clash pat s && free pat s'
  end.


Fixpoint all_digits (s : string) : bool :=
  match s with
  | EmptyString => true
  | String c s' => is_digit c && all_digits s'
  end.






(** A listing of complete entries: two PDFs and a text file. *)
Definition complete_listing : list _Object :=
  [ mkObject (Some "reports/q1.pdf") (Some 1704067200000) (Some 2048) (Some (quoted "abc123"));
    mkObject (Some "reports/q1.txt") (Some 1704067200001) (Some 5) (Some (quoted "ff"));
    mkObject (Some "reports/Q2.PDF") (Some 1711929600500) (Some 0) (Some (quoted "0f-2")) ].


(** ** Further vocabulary *)

(** The keys of the objects of a listing that pass the filter of
    [listPDFFiles], in the order of the listing. *)
Fixpoint pdf_keys (objs : list _Object) : list string :=
  match objs with
  | [] => []
  | obj :: objs' =>
      match Key obj with
      | Some k => if pdf_object obj then k :: pdf_keys objs' else pdf_keys objs'
      | None => pdf_keys objs'
      end
  end.

(** How many objects of a listing have no timestamp. *)
Fixpoint missing_timestamps (objs : list _Object) : nat :=
  match objs with
  | [] => O
  | obj :: objs' =>
      match LastModified obj with
      | Some _ => missing_timestamps objs'
      | None => S (missing_timestamps objs')
      end
  end.

(** The file was modified at the time value [t]. *)
Definition modified_at (t : Z) (f : S3File) : bool :=
  match lastModified f with
  | DateOf t' => t' =? t
  | InvalidDate => false
  end.

(** [pat] stands somewhere in [s]. *)
Definition occurs (pat s : string) : Prop :=
  exists before after, s = (before ++ pat ++ after)%string.

(** No character of [s] ends a line. *)
Fixpoint one_line (s : string) : bool :=
  match s with
  | EmptyString => true
  | String c s' => negb (line_terminator c) && one_line s'
  end.

(** Every character of [s] is one [encodeURIComponent] leaves alone, or
    the percent sign. *)
Fixpoint uri_safe (s : string) : bool :=
  match s with
  | EmptyString => true
  | String c s' => (uri_unreserved c || Ascii.eqb c "%") && uri_safe s'
  end.

Fixpoint all_unreserved (s : string) : bool :=
  match s with
  | EmptyString => true
  | String c s' => uri_unreserved c && all_unreserved s'
  end.

(** The bucket a store command names; a fetch names none. *)
Definition bucket_of (c : StoreCall) : option string :=
  match c with
  | ListObjectsV2Command b _ => Some b
  | GetObjectCommand b _ => Some b
  | FetchCall _ => None
  end.

(** The tags the patterns of [parse_content] look for: the opening and the
    closing text of Key, LastModified, Size and ETag. *)
Definition wanted_tags : list string :=
  [ "<Key>"; "</Key>"; "<LastModified>"; "</LastModified>";
    "<Size>"; "</Size>";
    ("<ETag>" ++ String dquote EmptyString)%string; String dquote "</ETag>" ].

(** The three headers of a streamed PDF that do not depend on the
    store's answer. *)
Definition pdf_headers (seg : string) : list (string * string) :=
  [ ("Content-Type", "application/pdf");
    ("Content-Disposition", ("inline; filename=" ++ quoted seg)%string);
    ("Cache-Control", "public, max-age=3600") ].

(** The [prefix] a list request asks for: the parameter, the empty string
    when it is missing. *)
Definition requested_prefix (req : Request) : string :=
  match searchParams_get "prefix" (searchParams req) with
  | Some p => p
  | None => EmptyString
  end.


(** The object carries the time value [t] as its timestamp. *)
Definition stamped_at (t : Z) (obj : _Object) : bool :=
  match LastModified obj with
  | Some t' => t' =? t
  | None => false
  end.

(** The object has a timestamp. *)
Definition stamped (obj : _Object) : bool :=
  match LastModified obj with
  | Some _ => true
  | None => false
  end.

(** A listing in which two PDFs share a timestamp and a third is newer. *)
Definition tied_listing : list _Object :=
  [ mkObject (Some "first.pdf") (Some 1000) (Some 1) (Some (quoted "a"));
    mkObject (Some "newer.pdf") (Some 2000) (Some 2) (Some (quoted "b"));
    mkObject (Some "second.pdf") (Some 1000) (Some 3) (Some (quoted "c")) ].


(** ** The browser UI: the file browser component *)

(** [s.includes(q)]: [q] stands somewhere in [s]. *)
Fixpoint includes (s q : string) : bool :=
  String.prefix q s ||
  match s with
  | EmptyString => false
  | String _ s' => includes s' q
  end.

(** [x.toFixed(1)] for the quotient [x] of a non-negative integer below
    2^53 by a power of two, which the double holds exactly: the integer
    [n] nearest to ten times the quotient, the larger one on a tie,
    written with its last digit after the point. *)
Definition toFixed1 (num den : Z) : string :=
  let n := (20 * num + den) / (2 * den) in
  toString (n / 10) ++ "." ++ toString (n mod 10).

Module UI.

(** [getFileName]: the last piece of the key between slashes, the key
    itself when that piece is empty. *)
Definition getFileName (key : string) : string :=
  match pop (split "/" key) with
  | Some piece => if truthy piece then piece else key
  | None => key
  end.

(** [formatFileSize], for a size that is a non-negative integer below
    2^53. *)
Definition formatFileSize (bytes : Z) : string :=
  if bytes <? 1024 then toString bytes ++ " B"
  else if bytes <? 1024 * 1024 then toFixed1 bytes 1024 ++ " KB"
  else if bytes <? 1024 * 1024 * 1024 then toFixed1 bytes (1024 * 1024) ++ " MB"
  else toFixed1 bytes (1024 * 1024 * 1024) ++ " GB".

(** The test of the search box on one file. *)
Definition matches (searchQuery : string) (file : S3File) : bool :=
  includes (toLowerCase (getFileName (key file))) (toLowerCase searchQuery)
  || includes (toLowerCase (key file)) (toLowerCase searchQuery).

(** [filteredFiles]. *)
Definition filteredFiles (files : list S3File) (searchQuery : string) : list S3File :=
  filter (matches searchQuery) files.

(** The URL [fetchFiles] fetches. *)
Definition list_request_url (searchPrefix : string) : string :=
  "/api/file/list"
  ++ (if truthy searchPrefix then "?prefix=" ++ encodeURIComponent searchPrefix
      else EmptyString).

(** The URL [handleDownload] opens and the preview frame shows. *)
Definition download_url (key : string) : string :=
  "/api/file/get?key=" ++ encodeURIComponent key.

(** The state of the component. *)
Record State : Type := mkState {
  files : list S3File;
  loading : bool;
  error : option string;
  prefix : string;
  selectedFile : option string;
  searchQuery : string
}.

(** What the fetch of the list URL resolves to: [ok], [status] and what
    [response.json()] comes to, read as a [PDFListResponse]. *)
Record ListReply : Type := mkListReply {
  reply_ok : bool;
  reply_status : Z;
  reply_files : Outcome (list S3File)
}.

(** The state when [fetchFiles] starts: [setLoading(true)] and
    [setError(null)]. *)
Definition fetchFiles_started (st : State) : State :=
  mkState (files st) true None (prefix st) (selectedFile st) (searchQuery st).

(** The state when [fetchFiles] has settled, given what the fetch came
    to.  A thrown value is an [Error], whose message is shown. *)
Definition fetchFiles_settled (st : State) (reply : Outcome ListReply) : State :=
  let st1 := fetchFiles_started st in
  let st2 :=
    match reply with
    | Return r =>
        if negb (reply_ok r) then
          mkState (files st1) (loading st1)
                  (Some ("HTTP error! status: " ++ toString (reply_status r))%string)
                  (prefix st1) (selectedFile st1) (searchQuery st1)
        else
          match reply_files r with
          | Return fs =>
              mkState fs (loading st1) (error st1) (prefix st1) (selectedFile st1)
                      (searchQuery st1)
          | Throw message =>
              mkState (files st1) (loading st1) (Some message) (prefix st1)
                      (selectedFile st1) (searchQuery st1)
          end
    | Throw message =>
        mkState (files st1) (loading st1) (Some message) (prefix st1) (selectedFile st1)
                (searchQuery st1)
    end in
  mkState (files st2) false (error st2) (prefix st2) (selectedFile st2) (searchQuery st2).

(** [handleFileSelect]. *)
Definition handleFileSelect (st : State) (key : string) : State :=
  mkState (files st) (loading st) (error st) (prefix st) (Some key) (searchQuery st).

End UI.


(** ** The URL of a request, as the server reads it *)

(** The value of a hexadecimal digit, either case. *)
Definition hex_value (c : ascii) : option N :=
  let n := N_of_ascii c in
  if is_digit c then Some (n - 48)%N
  else if ((65 <=? n) && (n <=? 70))%N then Some (n - 55)%N
  else if ((97 <=? n) && (n <=? 102))%N then Some (n - 87)%N
  else None.

Definition decoded (c : ascii) (rest : option string) : option string :=
  match rest with
  | Some s => Some (String c s)
  | None => None
  end.

(** A name or a value of a query string, decoded as [URLSearchParams]
    does: a plus sign is a space, a percent sign with two hexadecimal
    digits is a byte, and the bytes are read as UTF-8.  A percent sign
    without two digits stays.  The result is [None] when the bytes are no
    UTF-8 or give a character from 256 on, which the strings of this
    model do not have. *)
Fixpoint form_decode (s : string) : option string :=
  match s with
  | EmptyString => Some EmptyString
  | String c s1 =>
      if Ascii.eqb c "+" then decoded " " (form_decode s1)
      else if Ascii.eqb c "%" then
        match s1 with
        | String h1 (String h2 s3) =>
            match hex_value h1, hex_value h2 with
            | Some a, Some b =>
                let byte := (16 * a + b)%N in
                if (byte <? 128)%N then decoded (ascii_of_N byte) (form_decode s3)
                else if ((byte =? 194) || (byte =? 195))%N then
                  match s3 with
                  | String p (String h3 (String h4 s6)) =>
                      match Ascii.eqb p "%", hex_value h3, hex_value h4 with
                      | true, Some a', Some b' =>
                          let cont := (16 * a' + b')%N in
                          if ((128 <=? cont) && (cont <? 192))%N then
                            decoded (ascii_of_N ((byte - 192) * 64 + (cont - 128)))
                                    (form_decode s6)
                          else None
                      | _, _, _ => None
                      end
                  | _ => None
                  end
                else None
            | _, _ => decoded "%" (form_decode s1)
            end
        | _ => decoded "%" (form_decode s1)
        end
      else decoded c (form_decode s1)
  end.

(** The text before the first [c] in [s] and the text after it. *)
Fixpoint cut_at (c : ascii) (s : string) : option (string * string) :=
  match s with
  | EmptyString => None
  | String d s' =>
      if Ascii.eqb d c then Some (EmptyString, s')
      else match cut_at c s' with
           | Some (before, after) => Some (String d before, after)
           | None => None
           end
  end.

(** One piece of a query string: name and value around the first equals
    sign, the whole piece as name when there is none. *)
Definition parse_pair (piece : string) : option (string * string) :=
  let (name, value) :=
    match cut_at "=" piece with
    | Some nv => nv
    | None => (piece, EmptyString)
    end in
  match form_decode name, form_decode value with
  | Some n, Some v => Some (n, v)
  | _, _ => None
  end.

Fixpoint parse_pairs (pieces : list string) : option (list (string * string)) :=
  match pieces with
  | [] => Some []
  | piece :: pieces' =>
      if truthy piece then
        match parse_pair piece, parse_pairs pieces' with
        | Some nv, Some rest => Some (nv :: rest)
        | _, _ => None
        end
      else parse_pairs pieces'
  end.

(** [new URL(req.url).searchParams] on the query string: the pieces
    between ampersands, the empty ones left out. *)
Definition URLSearchParams (query : string) : option (list (string * string)) :=
  parse_pairs (split "&" query).

(** Path and query of the target of a request (a target carries no
    fragment). *)
Definition pathname_of (target : string) : string :=
  match cut_at "?" target with
  | Some (path, _) => path
  | None => target
  end.

Definition query_of (target : string) : string :=
  match cut_at "?" target with
  | Some (_, query) => query
  | None => EmptyString
  end.

(** The request the handlers are given for a target. *)
Definition request_of (target : string) : option Request :=
  match URLSearchParams (query_of target) with
  | Some params => Some (mkRequest params)
  | None => None
  end.

(** The text is a dot and the letters p, d, f, each in either case. *)
Definition is_dot_pdf (ext : string) : bool :=
  match ext with
  | String c0 (String c1 (String c2 (String c3 EmptyString))) =>
      Ascii.eqb c0 "."
      && (Ascii.eqb c1 "p" || Ascii.eqb c1 "P")
      && (Ascii.eqb c2 "d" || Ascii.eqb c2 "D")
      && (Ascii.eqb c3 "f" || Ascii.eqb c3 "F")
  | _ => false
  end.

(** The key ends with .pdf, letter case aside: one of its tails is such
    a text.  This is the extension test in the words of the
    specification, written without the code's lower-casing. *)
Fixpoint ends_dot_pdf (k : string) : bool :=
  is_dot_pdf k ||
  match k with
  | EmptyString => false
  | String _ k' => ends_dot_pdf k'
  end.

(** The keys, in the order of the listing, of the objects that have a key
    ending with .pdf. *)
Fixpoint keys_ending_pdf (objs : list _Object) : list string :=
  match objs with
  | [] => []
  | obj :: objs' =>
      match Key obj with
      | Some k => if ends_dot_pdf k then k :: keys_ending_pdf objs' else keys_ending_pdf objs'
      | None => keys_ending_pdf objs'
      end
  end.

(** A key with a line feed in its file name. *)
Definition line_feed_key : string :=
  ("docs/a" ++ String (ascii_of_nat 10) "b.pdf")%string.

(** A listing text as an XML writer that escapes the double quote writes
    it: the quotes of the ETag stand as the entity quot. *)
Definition entity_listing_text : string :=
  xml_prologue
  ++ "<Contents><Key>reports/q1.pdf</Key>"
  ++ "<LastModified>2024-01-01T00:00:00.000Z</LastModified>"
  ++ "<ETag>&quot;abc123&quot;</ETag><Size>2048</Size>"
  ++ "<StorageClass>STANDARD</StorageClass></Contents>"
  ++ xml_epilogue.

(** * Properties *)

(** ** Strings *)

Lemma endsWith_suffix (s suffix : string) :
  endsWith s suffix = true <-> exists stem, s = (stem ++ suffix)%string.
Proof.
  split.
  - induction s as [|c s IH]; cbn [endsWith]; intros H.
    + apply orb_true_iff in H as [H|H]; [|discriminate].
      apply String.eqb_eq in H. exists EmptyString. exact H.
    + apply orb_true_iff in H as [H|H].
      * apply String.eqb_eq in H. exists EmptyString. exact H.
      * destruct (IH H) as [stem ->]. exists (String c stem). reflexivity.
  - intros [stem ->]. induction stem as [|c stem IH].
    + destruct suffix; cbn [endsWith append]; rewrite String.eqb_refl; reflexivity.
    + cbn [endsWith append]. rewrite IH. apply orb_true_r.
Qed.

Lemma toLowerCase_split (k a b : string) :
  toLowerCase k = (a ++ b)%string ->
  exists k1 k2, k = (k1 ++ k2)%string /\ toLowerCase k1 = a /\ toLowerCase k2 = b.
Proof.
  revert k. induction a as [|c a IH]; simpl; intros k H.
  - exists EmptyString, k. auto.
  - destruct k as [|d k]; simpl in H; [discriminate|].
    injection H as Hc Hk. destruct (IH _ Hk) as (k1 & k2 & -> & <- & <-).
    exists (String d k1), k2. simpl. rewrite Hc. auto.
Qed.

Ltac by_cases_on_char c :=
  destruct c as [[|] [|] [|] [|] [|] [|] [|] [|]]; vm_compute;
  intros; try discriminate; auto.

Lemma lower_char_dot (c : ascii) : lower_char c = "."%char -> c = "."%char.
Proof. by_cases_on_char c. Qed.

Lemma lower_char_p (c : ascii) : lower_char c = "p"%char -> (c = "p" \/ c = "P")%char.
Proof. by_cases_on_char c. Qed.

Lemma lower_char_d (c : ascii) : lower_char c = "d"%char -> (c = "d" \/ c = "D")%char.
Proof. by_cases_on_char c. Qed.

Lemma lower_char_f (c : ascii) : lower_char c = "f"%char -> (c = "f" \/ c = "F")%char.
Proof. by_cases_on_char c. Qed.

Lemma has_pdf_extension_ends_with_pdf (k : string) :
  has_pdf_extension k = true -> ends_with_pdf k.
Proof.
  unfold has_pdf_extension. intros H.
  apply endsWith_suffix in H as [low H].
  apply toLowerCase_split in H as (stem & ext & -> & _ & Hext).
  destruct ext as [|c0 [|c1 [|c2 [|c3 [|c4 ext]]]]]; simpl in Hext; try discriminate.
  injection Hext as H0 H1 H2 H3.
  apply lower_char_dot in H0. subst c0.
  exists stem, c1, c2, c3. split; [reflexivity|].
  auto using lower_char_p, lower_char_d, lower_char_f.
Qed.

Lemma ends_with_pdf_has_pdf_extension (k : string) :
  ends_with_pdf k -> has_pdf_extension k = true.
Proof.
  intros (stem & e1 & e2 & e3 & -> & H1 & H2 & H3).
  unfold has_pdf_extension. apply endsWith_suffix.
  exists (toLowerCase stem).
  induction stem as [|c stem IH]; simpl.
  - destruct H1 as [-> | ->], H2 as [-> | ->], H3 as [-> | ->]; reflexivity.
  - rewrite IH. reflexivity.
Qed.

(** ** Sorting *)

Section SortFacts.
Context {A : Type} (comparefn : A -> A -> option Z).

Lemma insert_permutation (x : A) (l : list A) :
  Permutation (insert comparefn x l) (x :: l).
Proof.
  induction l as [|y l IH]; simpl.
  - reflexivity.
  - destruct (SortCompare comparefn x y <=? 0).
    + reflexivity.
    + rewrite IH. apply perm_swap.
Qed.

Lemma sort_permutation (l : list A) : Permutation (sort comparefn l) l.
Proof.
  induction l as [|x l IH]; simpl.
  - reflexivity.
  - rewrite insert_permutation. constructor. exact IH.
Qed.

Lemma sort_In (x : A) (l : list A) : In x (sort comparefn l) <-> In x l.
Proof.
  split; apply Permutation_in;
    [apply sort_permutation | symmetry; apply sort_permutation].
Qed.

Lemma sort_Forall (P : A -> Prop) (l : list A) :
  Forall P l -> Forall P (sort comparefn l).
Proof.
  intros H. apply Forall_forall. intros x Hx.
  apply (proj1 (sort_In x l)) in Hx. revert x Hx. apply Forall_forall. exact H.
Qed.
End SortFacts.

Lemma SortCompare_dated (a b : S3File) (ta tb : Z) :
  lastModified a = DateOf ta -> lastModified b = DateOf tb ->
  SortCompare by_lastModified_desc a b = tb - ta.
Proof.
  intros Ha Hb. unfold SortCompare, by_lastModified_desc. rewrite Ha, Hb. reflexivity.
Qed.

Lemma newer_or_same_trans (a b c : S3File) :
  newer_or_same a b -> newer_or_same b c -> newer_or_same a c.
Proof.
  intros (ta & tb & Ha & Hb & Hab) (tb' & tc & Hb' & Hc & Hbc).
  rewrite Hb in Hb'. injection Hb' as <-.
  exists ta, tc. repeat split; auto; lia.
Qed.

Lemma insert_non_increasing (x : S3File) (l : list S3File) :
  dated x -> Forall dated l -> non_increasing l ->
  non_increasing (insert by_lastModified_desc x l).
Proof.
  intros [tx Hx] Hl Hs. induction Hs as [|y l Hs IH Hy]; simpl.
  - repeat constructor.
  - inversion Hl as [|? ? [ty Hty] Hl']; subst.
    rewrite (SortCompare_dated x y tx ty Hx Hty).
    destruct (Z.leb_spec (ty - tx) 0) as [Hle|Hgt].
    + assert (Hxy : newer_or_same x y) by (exists tx, ty; repeat split; auto; lia).
      constructor.
      * constructor; assumption.
      * constructor; [exact Hxy|].
        eapply Forall_impl; [|exact Hy].
        intros z Hyz. exact (newer_or_same_trans _ _ _ Hxy Hyz).
    + constructor.
      * apply IH. exact Hl'.
      * apply Forall_forall. intros z Hz.
        apply (Permutation_in _ (insert_permutation _ x l)) in Hz.
        destruct Hz as [<-|Hz].
        -- exists ty, tx. repeat split; auto; lia.
        -- revert z Hz. apply Forall_forall. exact Hy.
Qed.

Lemma sort_non_increasing (l : list S3File) :
  Forall dated l -> non_increasing (sort by_lastModified_desc l).
Proof.
  induction 1 as [|x l Hx Hl IH]; simpl.
  - constructor.
  - apply insert_non_increasing; auto. apply sort_Forall. exact Hl.
Qed.

(** ** The listing *)

Section ListingFacts.
Variable rt : Runtime.

Lemma to_S3File_returns (obj : _Object) (k : string) (w : World) :
  Key obj = Some k ->
  exists f w',
    to_S3File rt obj w = (Return f, w')
    /\ file_of_object obj f
    /\ calls w' = calls w /\ console w' = console w
    /\ (LastModified obj <> None -> w' = w).
Proof.
  intros Hk. unfold to_S3File, file_of_object, dated, bind.
  destruct (LastModified obj) as [t|] eqn:Ht; simpl.
  - eexists _, w. split; [reflexivity|]. simpl. rewrite Hk.
    repeat split; eauto. intros t' [= <-]. reflexivity.
  - eexists _, _. split; [reflexivity|]. simpl. rewrite Hk.
    repeat split; eauto; try discriminate. intros []. reflexivity.
Qed.

Lemma mapM_to_S3File (objs : list _Object) (w : World) :
  Forall (fun obj => pdf_object obj = true) objs ->
  exists files w',
    mapM (to_S3File rt) objs w = (Return files, w')
    /\ Forall2 file_of_object objs files
    /\ calls w' = calls w /\ console w' = console w.
Proof.
  intros H. revert w. induction H as [|obj objs Hobj _ IH]; intros w.
  - exists [], w. simpl. repeat split; constructor.
  - assert (exists k, Key obj = Some k) as [k Hk].
    { unfold pdf_object in Hobj. destruct (Key obj); [eauto|discriminate]. }
    destruct (to_S3File_returns obj k w Hk) as (f & w1 & E1 & Hf & Hc1 & Hl1 & _).
    destruct (IH w1) as (files & w2 & E2 & Hfs & Hc2 & Hl2).
    exists (f :: files), w2. cbn [mapM]. unfold bind at 1. rewrite E1.
    unfold bind at 1. rewrite E2. unfold ret.
    repeat split; [constructor; assumption|congruence|congruence].
Qed.

Lemma pdf_objects_filtered (objs : list _Object) :
  Forall (fun obj => pdf_object obj = true) (filter pdf_object objs).
Proof. apply Forall_forall. intros obj H. apply filter_In in H. tauto. Qed.

(** What [listPDFFiles] comes to when the store answers. *)
Lemma listPDFFiles_answered (bucketName prefix : string) (response : ListObjectsV2Output) (w : World) :
  s3_list rt bucketName (command_prefix prefix) = Return response ->
  exists files w',
    listPDFFiles rt bucketName prefix w
      = (Return (sort by_lastModified_desc files), w')
    /\ Forall2 file_of_object (filter pdf_object (contents_of response)) files
    /\ calls w' = calls w ++ [ListObjectsV2Command bucketName (command_prefix prefix)]
    /\ console w' = console w.
Proof.
  intros Hs. unfold listPDFFiles, try_catch, send_list, bind, record_call, lift.
  fold (command_prefix prefix). rewrite Hs. unfold contents_of.
  destruct (Contents response) as [objs|].
  - match goal with |- context [mapM _ _ ?w0] =>
      destruct (mapM_to_S3File (filter pdf_object objs) w0 (pdf_objects_filtered objs))
        as (files & w' & E & Hfs & Hc & Hl)
    end.
    exists files, w'. rewrite E. unfold ret. simpl in Hc, Hl. auto.
  - eexists [], _. unfold ret. simpl. repeat split. constructor.
Qed.

(** What [listPDFFiles] comes to when the store call throws. *)
Lemma listPDFFiles_failed (bucketName prefix e : string) (w : World) :
  s3_list rt bucketName (command_prefix prefix) = Throw e ->
  listPDFFiles rt bucketName prefix w
    = (Throw "Failed to list files from S3",
       mkWorld (ticks w)
               (calls w ++ [ListObjectsV2Command bucketName (command_prefix prefix)])
               (console w ++ ["Error listing S3 files:"])).
Proof.
  intros Hs. unfold listPDFFiles, try_catch, send_list, bind, record_call, lift.
  fold (command_prefix prefix). rewrite Hs. reflexivity.
Qed.
End ListingFacts.

Lemma Forall2_Forall_r {A B : Type} (R : A -> B -> Prop) (P : A -> Prop) (Q : B -> Prop)
    (l : list A) (l' : list B) :
  (forall x y, P x -> R x y -> Q y) ->
  Forall2 R l l' -> Forall P l -> Forall Q l'.
Proof.
  intros HQ H. induction H as [|x y l l' Hxy _ IH]; intros HP.
  - constructor.
  - inversion HP; subst. constructor; eauto.
Qed.

Lemma Forall2_In_l {A B : Type} (R : A -> B -> Prop) (l : list A) (l' : list B) (x : A) :
  Forall2 R l l' -> In x l -> exists y, In y l' /\ R x y.
Proof.
  induction 1 as [|a b l l' Hab _ IH]; intros Hx; [contradiction|].
  destruct Hx as [<-|Hx].
  - exists b. split; [left; reflexivity|assumption].
  - destruct (IH Hx) as (y & Hy & Hxy). exists y. split; [right|]; assumption.
Qed.

Lemma Forall2_In_r {A B : Type} (R : A -> B -> Prop) (l : list A) (l' : list B) (y : B) :
  Forall2 R l l' -> In y l' -> exists x, In x l /\ R x y.
Proof.
  induction 1 as [|a b l l' Hab _ IH]; intros Hy; [contradiction|].
  destruct Hy as [<-|Hy].
  - exists a. split; [left; reflexivity|assumption].
  - destruct (IH Hy) as (x & Hx & Hxy). exists x. split; [right|]; assumption.
Qed.

Lemma pdf_object_key (obj : _Object) (k : string) :
  pdf_object obj = true -> Key obj = Some k -> has_pdf_extension k = true.
Proof.
  unfold pdf_object. intros H Hk. rewrite Hk in H. apply andb_true_iff in H. tauto.
Qed.

(** C1: when the store answers the list call, [listPDFFiles] returns a
    list in which every key ends with the extension .pdf, letter case
    aside, and which is ordered most recent first: no entry is older than
    an entry after it. *)
Theorem listPDFFiles_pdf_most_recent_first
    (rt : Runtime) (bucketName prefix : string)
    (response : ListObjectsV2Output) (w : World) :
  s3_list rt bucketName (command_prefix prefix) = Return response ->
  exists files w',
    listPDFFiles rt bucketName prefix w = (Return files, w')
    /\ Forall (fun f => ends_with_pdf (key f)) files
    /\ non_increasing files.
Proof.
  intros Hs.
  destruct (listPDFFiles_answered rt bucketName prefix response w Hs)
    as (files & w' & E & Hfs & _).
  exists (sort by_lastModified_desc files), w'. split; [exact E|]. split.
  - apply sort_Forall.
    apply (Forall2_Forall_r _ _ _ _ _ (fun obj f (Hp : pdf_object obj = true)
             (Hf : file_of_object obj f) =>
             has_pdf_extension_ends_with_pdf _ (pdf_object_key obj _ Hp (proj1 Hf)))
             Hfs (pdf_objects_filtered (contents_of response))).
  - apply sort_non_increasing.
    apply (Forall2_Forall_r file_of_object (fun _ => True) dated _ _
             (fun obj f _ Hf => proj1 (proj2 (proj2 (proj2 Hf)))) Hfs).
    apply Forall_forall. trivial.
Qed.

Lemma listPDFFiles_pdf_most_recent_first_witness :
  exists files w',
    listPDFFiles (listing_runtime (Some mixed_listing) ticking) "alba-admin" "a/" initial_world
      = (Return files, w')
    /\ Forall (fun f => ends_with_pdf (key f)) files
    /\ non_increasing files.
Proof.
  exact (listPDFFiles_pdf_most_recent_first
           (listing_runtime (Some mixed_listing) ticking) "alba-admin" "a/"
           {| Contents := Some mixed_listing |} initial_world eq_refl).
Defined.

(** C10: a list response without [Contents] makes [listPDFFiles] return
    the empty list; [listPDFFiles] returns a list whenever the store call
    returns, and throws, with its own message, when and only when the
    store call throws. *)
Theorem listPDFFiles_without_Contents
    (rt : Runtime) (bucketName prefix : string) (w : World) :
  match s3_list rt bucketName (command_prefix prefix) with
  | Return response =>
      match Contents response with
      | None => fst (listPDFFiles rt bucketName prefix w) = Return []
      | Some _ => exists files, fst (listPDFFiles rt bucketName prefix w) = Return files
      end
  | Throw _ =>
      fst (listPDFFiles rt bucketName prefix w) = Throw "Failed to list files from S3"
  end.
Proof.
  destruct (s3_list rt bucketName (command_prefix prefix)) as [response|e] eqn:Hs.
  - destruct (listPDFFiles_answered rt bucketName prefix response w Hs)
      as (files & w' & E & Hfs & _).
    rewrite E. unfold contents_of in Hfs.
    destruct (Contents response).
    + eexists. reflexivity.
    + inversion Hfs. reflexivity.
  - rewrite (listPDFFiles_failed rt bucketName prefix e w Hs). reflexivity.
Qed.

(** ** ETags *)

Lemma remove_all_app (c : ascii) (a b : string) :
  remove_all c (a ++ b) = (remove_all c a ++ remove_all c b)%string.
Proof.
  induction a as [|d a IH]; simpl; [reflexivity|].
  destruct (Ascii.eqb d c); simpl; rewrite IH; reflexivity.
Qed.

Lemma append_empty_r (s : string) : (s ++ EmptyString)%string = s.
Proof. induction s as [|c s IH]; simpl; [|rewrite IH]; reflexivity. Qed.

Lemma append_assoc (a b c : string) : ((a ++ b) ++ c)%string = (a ++ (b ++ c))%string.
Proof. induction a as [|d a IH]; simpl; [|rewrite IH]; reflexivity. Qed.

Lemma remove_all_quoted (v : string) :
  remove_all dquote (quoted v) = remove_all dquote v.
Proof.
  unfold quoted. cbn [remove_all]. rewrite Ascii.eqb_refl, remove_all_app.
  cbn [remove_all]. rewrite Ascii.eqb_refl. apply append_empty_r.
Qed.

Lemma remove_all_without (c : ascii) (s : string) :
  without c s = true -> remove_all c s = s.
Proof.
  induction s as [|d s IH]; simpl; [reflexivity|].
  intros H. apply andb_true_iff in H as [Hd Hs].
  apply negb_true_iff in Hd. rewrite Hd, (IH Hs). reflexivity.
Qed.

Lemma etag_of_quoted (obj : _Object) (v : string) :
  ETag obj = Some (quoted v) -> etag_of obj = remove_all dquote v.
Proof.
  unfold etag_of. intros ->. rewrite remove_all_quoted.
  destruct (remove_all dquote v); reflexivity.
Qed.

(** C3, as amended: an object of the listing whose key passes the filter
    and whose upstream ETag is a value between double quotes has an entry
    in the list [listPDFFiles] returns, and the etag of that entry is the
    value with every double quote removed; it is the value itself when the
    value holds no double quote, as abc123 does. *)
Theorem listPDFFiles_etag_unquoted
    (rt : Runtime) (bucketName prefix : string) (response : ListObjectsV2Output)
    (obj : _Object) (v : string) (w : World) :
  s3_list rt bucketName (command_prefix prefix) = Return response ->
  In obj (contents_of response) ->
  pdf_object obj = true ->
  ETag obj = Some (quoted v) ->
  exists files w',
    listPDFFiles rt bucketName prefix w = (Return files, w')
    /\ exists f, In f files
         /\ Key obj = Some (key f)
         /\ etag f = remove_all dquote v
         /\ (without dquote v = true -> etag f = v).
Proof.
  intros Hs Hin Hpdf He.
  destruct (listPDFFiles_answered rt bucketName prefix response w Hs)
    as (files & w' & E & Hfs & _).
  exists (sort by_lastModified_desc files), w'. split; [exact E|].
  assert (Hobj : In obj (filter pdf_object (contents_of response)))
    by (apply filter_In; auto).
  destruct (Forall2_In_l _ _ _ _ Hfs Hobj) as (f & Hf & Hk & _ & Hetag & _).
  exists f. split; [apply sort_In; exact Hf|]. split; [exact Hk|].
  rewrite Hetag, (etag_of_quoted obj v He). split; [reflexivity|].
  intros Hv. apply remove_all_without. exact Hv.
Qed.

Lemma listPDFFiles_etag_abc123 :
  exists files w',
    listPDFFiles (listing_runtime (Some mixed_listing) ticking) "alba-admin" "" initial_world
      = (Return files, w')
    /\ exists f, In f files
         /\ Some "a/old.pdf" = Some (key f)
         /\ etag f = remove_all dquote "abc123"
         /\ (without dquote "abc123" = true -> etag f = "abc123").
Proof.
  exact (listPDFFiles_etag_unquoted
           (listing_runtime (Some mixed_listing) ticking) "alba-admin" ""
           {| Contents := Some mixed_listing |}
           (mkObject (Some "a/old.pdf") (Some 1000) (Some 10) (Some (quoted "abc123")))
           "abc123" initial_world eq_refl (or_introl eq_refl) eq_refl eq_refl).
Defined.

(** C3 as stated fails: the ETag that wraps the value x, double quote, y
    in double quotes is exposed as xy, which is not that value. *)
Lemma listPDFFiles_etag_inner_quote :
  fst (listPDFFiles (listing_runtime (Some inner_quote_listing) ticking)
         "alba-admin" "" initial_world)
    = Return [ {| key := "a.pdf"; lastModified := DateOf 1000; size := 10; etag := "xy" |} ]
  /\ "xy" <> ("x" ++ String dquote "y")%string.
Proof. split; [reflexivity|discriminate]. Qed.

(** ** Streaming *)

Lemma digits_of_truthy (width : nat) (n : Z) (acc : string) :
  truthy acc = true -> truthy (digits_of width n acc) = true.
Proof.
  revert n acc. induction width as [|width IH]; intros n acc H; simpl; [exact H|].
  destruct (n / 10 =? 0); [reflexivity|]. apply IH. reflexivity.
Qed.

Lemma digits_of_S_truthy (width : nat) (n : Z) (acc : string) :
  truthy (digits_of (S width) n acc) = true.
Proof.
  simpl. destruct (n / 10 =? 0); [reflexivity|]. apply digits_of_truthy. reflexivity.
Qed.

Lemma toString_truthy (n : Z) : truthy (toString n) = true.
Proof. apply digits_of_S_truthy. Qed.

Lemma split_pieces (k : string) :
  Forall (fun piece => without "/" piece = true) (split "/" k).
Proof.
  induction k as [|c k IH]; simpl.
  - repeat constructor.
  - destruct (Ascii.eqb c "/") eqn:Hc.
    + constructor; [reflexivity|exact IH].
    + destruct (split "/" k) as [|piece pieces].
      * repeat constructor. simpl. rewrite Hc. reflexivity.
      * inversion IH; subst. constructor; [|assumption].
        simpl. rewrite Hc. assumption.
Qed.

Lemma split_not_empty (k : string) : split "/" k <> [].
Proof.
  destruct k as [|c k]; simpl; [discriminate|].
  destruct (Ascii.eqb c "/"); [discriminate|].
  destruct (split "/" k); discriminate.
Qed.

Lemma split_concat (k : string) : String.concat "/" (split "/" k) = k.
Proof.
  induction k as [|c k IH]; [reflexivity|].
  cbn [split]. pose proof (split_not_empty k) as Hne.
  destruct (Ascii.eqb_spec c "/") as [->|Hc];
    destruct (split "/" k) as [|piece pieces]; try contradiction.
  - cbn [String.concat]. cbn [String.concat] in IH. rewrite IH. reflexivity.
  - destruct pieces as [|piece' pieces].
    + cbn [String.concat] in *. rewrite IH. reflexivity.
    + change (String c (piece ++ "/" ++ String.concat "/" (piece' :: pieces)) = String c k).
      change (piece ++ "/" ++ String.concat "/" (piece' :: pieces) = k)%string in IH.
      rewrite IH. reflexivity.
Qed.

Lemma pop_last {A : Type} (l : list A) :
  l <> [] -> exists init x, l = init ++ [x] /\ pop l = Some x.
Proof.
  induction l as [|a l IH]; intros H; [contradiction|].
  destruct l as [|b l].
  - exists [], a. auto.
  - destruct IH as (init & x & E & Hp); [discriminate|].
    exists (a :: init), x. rewrite E. split; [reflexivity|].
    rewrite <- E. exact Hp.
Qed.

Lemma concat_last (sep : string) (init : list string) (x : string) :
  init <> [] ->
  String.concat sep (init ++ [x]) = (String.concat sep init ++ sep ++ x)%string.
Proof.
  induction init as [|a init IH]; intros H; [contradiction|].
  destruct init as [|b init].
  - reflexivity.
  - change (String.concat sep ((a :: b :: init) ++ [x]))
      with (a ++ sep ++ String.concat sep ((b :: init) ++ [x]))%string.
    rewrite IH by discriminate.
    change (String.concat sep (a :: b :: init))
      with (a ++ sep ++ String.concat sep (b :: init))%string.
    rewrite !append_assoc. reflexivity.
Qed.

Lemma pop_split_last_segment (k : string) :
  exists seg, pop (split "/" k) = Some seg /\ last_segment k seg.
Proof.
  destruct (pop_last (split "/" k) (split_not_empty k)) as (init & seg & E & Hp).
  exists seg. split; [exact Hp|]. split.
  - pose proof (split_pieces k) as H. rewrite E in H.
    apply Forall_app in H as [_ H]. inversion H; assumption.
  - pose proof (split_concat k) as H. rewrite E in H.
    destruct init as [|a init].
    + left. symmetry. exact H.
    + right. exists (String.concat "/" (a :: init)).
      rewrite concat_last in H by discriminate. symmetry. exact H.
Qed.

(** ** Decimal numerals *)

Lemma digit_char_digit (d : Z) :
  0 <= d < 10 ->
  is_digit (digit_char d) = true /\ Z.of_N (N_of_ascii (digit_char d) - 48) = d.
Proof.
  intros H.
  assert (d = 0 \/ d = 1 \/ d = 2 \/ d = 3 \/ d = 4 \/ d = 5 \/ d = 6 \/ d = 7
          \/ d = 8 \/ d = 9) as Hd by lia.
  repeat (destruct Hd as [-> | Hd]; [split; reflexivity|]). subst. split; reflexivity.
Qed.

Lemma mod_10_digit (n : Z) : 0 <= n mod 10 < 10.
Proof. apply Z.mod_pos_bound. lia. Qed.

Lemma all_digits_digits_of (width : nat) (n : Z) (acc : string) :
  all_digits acc = true -> all_digits (digits_of width n acc) = true.
Proof.
  revert n acc. induction width as [|width IH]; intros n acc H; [exact H|].
  assert (H' : all_digits (String (digit_char (n mod 10)) acc) = true).
  { cbn [all_digits]. rewrite (proj1 (digit_char_digit _ (mod_10_digit n))). exact H. }
  cbn [digits_of]. destruct (n / 10 =? 0); [exact H'|apply IH; exact H'].
Qed.

Lemma all_digits_toString (n : Z) : all_digits (toString n) = true.
Proof. apply all_digits_digits_of. reflexivity. Qed.

(** ** Header values *)

Lemma strip_trailing_end (a : string) (q : ascii) :
  http_whitespace q = false ->
  strip_trailing (a ++ String q EmptyString) = (a ++ String q EmptyString)%string.
Proof.
  intros Hq. induction a as [|c a IH]; cbn [append strip_trailing].
  - rewrite Hq. reflexivity.
  - rewrite IH. destruct a; reflexivity.
Qed.

Lemma is_digit_not_whitespace (c : ascii) : is_digit c = true -> http_whitespace c = false.
Proof. by_cases_on_char c. Qed.

Lemma is_digit_header_value (c : ascii) (v : string) :
  is_digit c = true -> header_value (String c v) = header_value v.
Proof.
  destruct c as [[|] [|] [|] [|] [|] [|] [|] [|]]; intros H;
    try discriminate H; reflexivity.
Qed.

Lemma strip_trailing_digits (s : string) : all_digits s = true -> strip_trailing s = s.
Proof.
  induction s as [|c s IH]; [reflexivity|]. cbn [all_digits strip_trailing].
  intros H. apply andb_true_iff in H as [Hc Hs]. rewrite (IH Hs).
  destruct s; [rewrite (is_digit_not_whitespace c Hc)|]; reflexivity.
Qed.

(** A decimal numeral is stored as it is, and is accepted. *)
Lemma normalize_value_digits (s : string) : all_digits s = true -> normalize_value s = s.
Proof.
  intros H. unfold normalize_value. destruct s as [|c s]; [reflexivity|].
  cbn [strip_leading]. pose proof H as H'. cbn [all_digits] in H'.
  apply andb_true_iff in H' as [Hc _]. rewrite (is_digit_not_whitespace c Hc).
  apply strip_trailing_digits. exact H.
Qed.

Lemma header_value_digits (s : string) : all_digits s = true -> header_value s = true.
Proof.
  induction s as [|c s IH]; [reflexivity|]. cbn [all_digits].
  intros H. apply andb_true_iff in H as [Hc Hs].
  rewrite (is_digit_header_value c s Hc). exact (IH Hs).
Qed.

Lemma header_value_append (a b : string) :
  header_value (a ++ b) = header_value a && header_value b.
Proof.
  induction a as [|c a IH]; [reflexivity|]. cbn [append header_value].
  rewrite IH, andb_assoc. reflexivity.
Qed.

(** The Content-Disposition value is stored as it is, and is accepted
    exactly when the file name in it is. *)
Lemma disposition_value (seg : string) :
  normalize_value ("inline; filename=" ++ quoted seg) = ("inline; filename=" ++ quoted seg)%string
  /\ header_value ("inline; filename=" ++ quoted seg) = header_value seg.
Proof.
  split.
  - unfold normalize_value.
    change (strip_leading ("inline; filename=" ++ quoted seg))
      with ("inline; filename=" ++ quoted seg)%string.
    unfold quoted.
    change ("inline; filename=" ++ String dquote (seg ++ String dquote EmptyString))%string
      with (("inline; filename=" ++ String dquote EmptyString)
              ++ (seg ++ String dquote EmptyString))%string.
    rewrite <- append_assoc. apply strip_trailing_end. reflexivity.
  - unfold quoted. rewrite header_value_append.
    change (String dquote (seg ++ String dquote EmptyString))
      with (String dquote EmptyString ++ (seg ++ String dquote EmptyString))%string.
    rewrite !header_value_append. cbn. rewrite andb_true_r. reflexivity.
Qed.

(** The Content-Length value of the init headers is a decimal numeral or
    the empty string. *)
Lemma length_value_digits (len : option Z) :
  all_digits match len with
             | Some n => let s := toString n in if truthy s then s else EmptyString
             | None => EmptyString
             end = true.
Proof.
  destruct len as [n|]; [|reflexivity]. cbv zeta.
  rewrite toString_truthy. apply all_digits_toString.
Qed.

(** [new Response] on the init headers of [getS3FileStream]: the headers
    are stored as they are written, and the file name decides whether the
    response is built. *)
Lemma new_Response_stream_headers
    (content : ResponseBody) (k seg : string) (len : option Z) (w : World) :
  pop (split "/" k) = Some seg ->
  new_Response content (stream_headers k len) w
    = (if header_value seg
       then Return (mkResponse 200 (stream_headers k len) content)
       else Throw "Invalid header value", w).
Proof.
  intros Hp. unfold new_Response, stream_headers. rewrite Hp.
  pose proof (length_value_digits len) as Hd.
  set (size_text := match len with Some n => _ | None => _ end) in *.
  cbn [template map fst snd forallb].
  change (String dquote seg ++ String dquote EmptyString)%string with (quoted seg).
  destruct (disposition_value seg) as [Hn Hv]. rewrite Hn, Hv.
  rewrite (normalize_value_digits _ Hd), (header_value_digits _ Hd).
  change (normalize_value "application/pdf") with "application/pdf".
  change (normalize_value "public, max-age=3600") with "public, max-age=3600".
  change (header_value "application/pdf") with true.
  change (header_value "public, max-age=3600") with true.
  cbn [andb]. rewrite andb_true_r.
  destruct (header_value seg); reflexivity.
Qed.

(** The same for the three init headers of [getS3FileStreamSimple]. *)
Lemma new_Response_simple_headers
    (content : ResponseBody) (k seg : string) (w : World) :
  pop (split "/" k) = Some seg ->
  new_Response content
    [ ("Content-Type", "application/pdf");
      ("Content-Disposition",
        ("inline; filename=" ++ String dquote (template (pop (split "/" k)))
                             ++ String dquote EmptyString)%string);
      ("Cache-Control", "public, max-age=3600") ] w
    = (if header_value seg
       then Return (mkResponse 200
                      [ ("Content-Type", "application/pdf");
                        ("Content-Disposition", ("inline; filename=" ++ quoted seg)%string);
                        ("Cache-Control", "public, max-age=3600") ] content)
       else Throw "Invalid header value", w).
Proof.
  intros Hp. unfold new_Response. rewrite Hp.
  cbn [template map fst snd forallb].
  change (String dquote seg ++ String dquote EmptyString)%string with (quoted seg).
  destruct (disposition_value seg) as [Hn Hv]. rewrite Hn, Hv.
  change (normalize_value "application/pdf") with "application/pdf".
  change (normalize_value "public, max-age=3600") with "public, max-age=3600".
  change (header_value "application/pdf") with true.
  change (header_value "public, max-age=3600") with true.
  cbn [andb]. rewrite andb_true_r.
  destruct (header_value seg); reflexivity.
Qed.

(** The init headers of [getS3FileStream], spelled out. *)
Lemma stream_headers_spelled (k seg : string) (len : option Z) :
  pop (split "/" k) = Some seg ->
  stream_headers k len
    = [ ("Content-Type", "application/pdf");
        ("Content-Disposition", ("inline; filename=" ++ quoted seg)%string);
        ("Cache-Control", "public, max-age=3600");
        ("Content-Length",
          match len with
          | Some n => toString n
          | None => EmptyString
          end) ].
Proof.
  intros Hp. unfold stream_headers. rewrite Hp. cbn [template]. unfold quoted.
  destruct len as [n|]; [|reflexivity].
  cbv zeta. rewrite toString_truthy. reflexivity.
Qed.

Section StreamingFacts.
Variable rt : Runtime.

(** What [getS3FileStream] comes to when the store answers with a body:
    the file name in the key decides between the response and the
    failure. *)
Lemma getS3FileStream_streamed
    (bucketName k seg stream : string) (out : GetObjectOutput) (w : World) :
  s3_get rt bucketName k = Return out ->
  Body out = Some stream ->
  pop (split "/" k) = Some seg ->
  getS3FileStream rt bucketName k w
    = if header_value seg
      then (Return (mkResponse 200 (stream_headers k (ContentLength out)) (StreamBody stream)),
            mkWorld (ticks w) (calls w ++ [GetObjectCommand bucketName k]) (console w))
      else (Throw "Failed to stream file from S3",
            mkWorld (ticks w) (calls w ++ [GetObjectCommand bucketName k])
                    (console w ++ ["Error streaming S3 file:"])).
Proof.
  intros Hs Hb Hp. unfold getS3FileStream, try_catch, send_get, bind, record_call, lift.
  rewrite Hs, Hb. rewrite (new_Response_stream_headers _ k seg _ _ Hp).
  destruct (header_value seg); reflexivity.
Qed.

(** What it comes to when the store has nothing to stream. *)
Lemma getS3FileStream_failed (bucketName k : string) (w : World) :
  no_body rt bucketName k ->
  getS3FileStream rt bucketName k w
    = (Throw "Failed to stream file from S3",
       mkWorld (ticks w) (calls w ++ [GetObjectCommand bucketName k])
               (console w ++ ["Error streaming S3 file:"])).
Proof.
  unfold no_body. intros H.
  unfold getS3FileStream, try_catch, send_get, bind, record_call, lift.
  destruct (s3_get rt bucketName k) as [out|e]; [rewrite H|]; reflexivity.
Qed.
End StreamingFacts.

(** C2, as amended: when the store answers with a body, what
    [getS3FileStream] does is decided by the last piece of the key
    between slashes, which is the file name of the Content-Disposition
    header.  When that piece has no NUL, line feed or carriage return, a
    response of status 200 is returned whose headers are exactly
    Content-Type application/pdf, Content-Disposition inline with the
    piece as filename, Cache-Control public, max-age=3600, and
    Content-Length, which is always there: the decimal length when the
    store reported one, the empty string when it did not.  When the piece
    has such a character, no response can be built and the call throws
    Failed to stream file from S3. *)
Theorem getS3FileStream_headers
    (rt : Runtime) (bucketName k stream : string) (out : GetObjectOutput) (w : World) :
  s3_get rt bucketName k = Return out ->
  Body out = Some stream ->
  exists seg w',
    last_segment k seg
    /\ getS3FileStream rt bucketName k w
       = (if header_value seg
          then Return {| status := 200;
                         headers :=
                           [ ("Content-Type", "application/pdf");
                             ("Content-Disposition", ("inline; filename=" ++ quoted seg)%string);
                             ("Cache-Control", "public, max-age=3600");
                             ("Content-Length",
                               match ContentLength out with
                               | Some n => toString n
                               | None => EmptyString
                               end) ];
                         body := StreamBody stream |}
          else Throw "Failed to stream file from S3", w').
Proof.
  intros Hs Hb.
  destruct (pop_split_last_segment k) as (seg & Hp & Hseg).
  exists seg.
  rewrite (getS3FileStream_streamed rt bucketName k seg stream out w Hs Hb Hp).
  rewrite (stream_headers_spelled k seg _ Hp).
  destruct (header_value seg); eexists; (split; [exact Hseg|reflexivity]).
Qed.

Lemma getS3FileStream_headers_witness :
  exists seg w',
    last_segment "reports/q1.pdf" seg
    /\ getS3FileStream (store_runtime reports_store ticking) "alba-admin" "reports/q1.pdf"
         initial_world
       = (if header_value seg
          then Return {| status := 200;
                         headers :=
                           [ ("Content-Type", "application/pdf");
                             ("Content-Disposition", ("inline; filename=" ++ quoted seg)%string);
                             ("Cache-Control", "public, max-age=3600");
                             ("Content-Length", toString 8) ];
                         body := StreamBody "%PDF-1.7" |}
          else Throw "Failed to stream file from S3", w').
Proof.
  exact (getS3FileStream_headers (store_runtime reports_store ticking)
           "alba-admin" "reports/q1.pdf" "%PDF-1.7"
           {| Body := Some "%PDF-1.7"; ContentLength := Some 8 |}
           initial_world eq_refl eq_refl).
Defined.

(** C2 as stated fails: the store reports no content length, and the
    response still has a Content-Length header, with the empty string as
    its value. *)
Lemma getS3FileStream_Content_Length_unknown :
  s3_get unsized_runtime "alba-admin" "docs/a.pdf"
    = Return {| Body := Some "%PDF-1.7"; ContentLength := None |}
  /\ exists r w',
       getS3FileStream unsized_runtime "alba-admin" "docs/a.pdf" initial_world = (Return r, w')
       /\ In ("Content-Length", EmptyString) (headers r).
Proof.
  split; [reflexivity|]. eexists _, _. split; [reflexivity|].
  simpl. auto.
Qed.

(** ** The handler of /api/file/get *)

Section HandlerFacts.
Variable rt : Runtime.

Lemma GET_file_get_calls_service (req : Request) (k : string) (w : World) :
  searchParams_get "key" (searchParams req) = Some k ->
  truthy k = true ->
  GET_file_get rt req w
    = try_catch (getS3FileStream rt "alba-admin" k)
        (fun _ =>
           console_error "Error getting file:" ;;;
           ret (Response_json [("error", JString "Failed to get PDF file")] 500))%js w.
Proof.
  intros Hk Ht. unfold GET_file_get, try_catch. rewrite Hk, Ht. reflexivity.
Qed.
End HandlerFacts.

(** C6: a GET request to /api/file/get without a key parameter is
    answered with status 400 and body error: File key is required, and
    no call to the store is issued for it. *)
Theorem GET_file_get_without_key (rt : Runtime) (req : Request) (w : World) :
  searchParams_get "key" (searchParams req) = None ->
  exists r w',
    GET_file_get rt req w = (Return r, w')
    /\ status r = 400
    /\ body r = error_body "File key is required"
    /\ calls w' = calls w.
Proof.
  intros Hk. exists (Response_json [("error", JString "File key is required")] 400), w.
  unfold GET_file_get, try_catch. rewrite Hk. auto.
Qed.

Lemma GET_file_get_without_key_witness :
  exists r w',
    GET_file_get (store_runtime reports_store ticking) (GET [("prefix", "reports/")])
      initial_world = (Return r, w')
    /\ status r = 400
    /\ body r = error_body "File key is required"
    /\ calls w' = calls initial_world.
Proof.
  exact (GET_file_get_without_key (store_runtime reports_store ticking)
           (GET [("prefix", "reports/")]) initial_world eq_refl).
Defined.

(** C9: a GET request to /api/file/get whose key parameter is the empty
    string is answered as one without a key: status 400, body error: File
    key is required, and no call to the store. *)
Theorem GET_file_get_empty_key (rt : Runtime) (req : Request) (w : World) :
  searchParams_get "key" (searchParams req) = Some EmptyString ->
  exists r w',
    GET_file_get rt req w = (Return r, w')
    /\ status r = 400
    /\ body r = error_body "File key is required"
    /\ calls w' = calls w.
Proof.
  intros Hk. exists (Response_json [("error", JString "File key is required")] 400), w.
  unfold GET_file_get, try_catch. rewrite Hk. auto.
Qed.

Lemma GET_file_get_empty_key_witness :
  exists r w',
    GET_file_get (store_runtime reports_store ticking) (GET [("key", EmptyString)])
      initial_world = (Return r, w')
    /\ status r = 400
    /\ body r = error_body "File key is required"
    /\ calls w' = calls initial_world.
Proof.
  exact (GET_file_get_empty_key (store_runtime reports_store ticking)
           (GET [("key", EmptyString)]) initial_world eq_refl).
Defined.

(** C5, as amended: for a key that is not the empty string and for which
    the store has nothing to stream (the get call throws or answers
    without a body), [getS3FileStream] throws and the handler answers 500
    with body error: Failed to get PDF file; for every such key, empty or
    not, the answer is never a 200. *)
Theorem GET_file_get_missing_object
    (rt : Runtime) (req : Request) (k : string) (w : World) :
  searchParams_get "key" (searchParams req) = Some k ->
  no_body rt "alba-admin" k ->
  exists r w',
    GET_file_get rt req w = (Return r, w')
    /\ status r <> 200
    /\ (k <> EmptyString ->
        fst (getS3FileStream rt "alba-admin" k w) = Throw "Failed to stream file from S3"
        /\ status r = 500
        /\ body r = error_body "Failed to get PDF file").
Proof.
  intros Hk Hno. destruct k as [|c k].
  - exists (Response_json [("error", JString "File key is required")] 400), w.
    unfold GET_file_get, try_catch. rewrite Hk. simpl.
    repeat split; [discriminate|congruence|congruence|congruence].
  - rewrite (GET_file_get_calls_service rt req _ w Hk eq_refl).
    unfold try_catch.
    rewrite (getS3FileStream_failed rt "alba-admin" _ w Hno).
    eexists _, _. split; [reflexivity|]. simpl.
    repeat split; discriminate.
Qed.

Lemma GET_file_get_missing_pdf :
  exists r w',
    GET_file_get (store_runtime reports_store ticking) (GET [("key", "missing.pdf")])
      initial_world = (Return r, w')
    /\ status r <> 200
    /\ ("missing.pdf" <> EmptyString ->
        fst (getS3FileStream (store_runtime reports_store ticking) "alba-admin" "missing.pdf"
               initial_world) = Throw "Failed to stream file from S3"
        /\ status r = 500
        /\ body r = error_body "Failed to get PDF file").
Proof.
  exact (GET_file_get_missing_object (store_runtime reports_store ticking)
           (GET [("key", "missing.pdf")]) "missing.pdf" initial_world eq_refl I).
Defined.

(** C5 as stated fails: the empty key is in no store, and the request
    that carries it is answered 400, not 500. *)
Lemma GET_file_get_empty_key_not_500 :
  store_find reports_store EmptyString = None
  /\ fst (GET_file_get (store_runtime reports_store ticking) (GET [("key", EmptyString)])
            initial_world)
     = Return {| status := 400; headers := [];
                 body := error_body "File key is required" |}.
Proof. split; reflexivity. Qed.

(** ** Listing a store *)

Lemma filter_map_comm {A B : Type} (f : A -> B) (p : B -> bool) (l : list A) :
  filter p (map f l) = map f (filter (fun x => p (f x)) l).
Proof.
  induction l as [|x l IH]; simpl; [reflexivity|].
  destruct (p (f x)); simpl; rewrite IH; reflexivity.
Qed.

Lemma file_of_listed (o : StoredObject) (f : S3File) :
  file_of_object (listed o) f -> f = stored_file o.
Proof.
  intros (Hk & Hs & He & _ & Ht). destruct f as [k lm sz e]. simpl in *.
  injection Hk as <-. rewrite (Ht _ eq_refl), Hs, He. reflexivity.
Qed.

Lemma files_of_listed (os : list StoredObject) (files : list S3File) :
  Forall2 file_of_object (map listed os) files -> files = map stored_file os.
Proof.
  revert files. induction os as [|o os IH]; intros files H; inversion H; subst.
  - reflexivity.
  - simpl. f_equal; [apply file_of_listed; assumption|apply IH; assumption].
Qed.

Lemma contents_of_store_list (st : Store) (bucketName : string) (P : option string) :
  exists response,
    store_list st bucketName P = Return response
    /\ contents_of response = map listed (firstn default_page (filter (under_prefix P) st)).
Proof.
  unfold store_list.
  destruct (firstn default_page (filter (under_prefix P) st)); eexists; split; reflexivity.
Qed.

(** The files [listPDFFiles] returns on a store: the PDFs of the first
    page under the prefix, sorted. *)
Lemma listPDFFiles_of_store (st : Store) (clock : nat -> Z) (bucketName prefix : string) (w : World) :
  fst (listPDFFiles (store_runtime st clock) bucketName prefix w)
    = Return (sort by_lastModified_desc
                (map stored_file
                   (filter (fun o => pdf_object (listed o))
                      (firstn default_page
                         (filter (under_prefix (command_prefix prefix)) st))))).
Proof.
  destruct (contents_of_store_list st bucketName (command_prefix prefix)) as (response & Hs & Hc).
  destruct (listPDFFiles_answered (store_runtime st clock) bucketName prefix response w Hs)
    as (files & w' & E & Hfs & _).
  rewrite E. simpl. rewrite Hc, filter_map_comm in Hfs.
  rewrite (files_of_listed _ _ Hfs). reflexivity.
Qed.

Lemma firstn_page (st : Store) (P : option string) :
  (List.length st <= default_page)%nat ->
  firstn default_page (filter (under_prefix P) st) = filter (under_prefix P) st.
Proof.
  intros H. apply firstn_all2.
  pose proof (filter_length_le (under_prefix P) st). lia.
Qed.

(** C7: when the store holds exactly reports/q1.pdf, 2048 bytes long and
    modified at 2024-01-01T00:00:00Z, and reports/q1.txt, whatever their
    other attributes and their order, [listPDFFiles] with the prefix
    reports/ returns exactly one entry: key reports/q1.pdf, size 2048. *)
Theorem listPDFFiles_reports_scenario
    (st : Store) (clock : nat -> Z) (etag bytes etag' bytes' : string)
    (modified' size' : Z) (w : World) :
  Permutation st [q1_pdf etag bytes; q1_txt modified' size' etag' bytes'] ->
  fst (listPDFFiles (store_runtime st clock) "alba-admin" "reports/" w)
    = Return [ {| key := "reports/q1.pdf";
                  lastModified := DateOf 1704067200000;
                  size := 2048;
                  etag := remove_all dquote etag |} ].
Proof.
  intros H. rewrite listPDFFiles_of_store.
  assert (Hfile : stored_file (mkStored "reports/q1.pdf" 1704067200000 2048 etag bytes)
                  = {| key := "reports/q1.pdf";
                       lastModified := DateOf 1704067200000;
                       size := 2048;
                       etag := remove_all dquote etag |}).
  { unfold stored_file, etag_of. simpl. destruct (remove_all dquote etag); reflexivity. }
  unfold q1_pdf, q1_txt in H.
  apply Permutation_sym, Permutation_length_2_inv in H as [-> | ->];
    cbn -[stored_file]; rewrite Hfile; reflexivity.
Qed.

Lemma listPDFFiles_reports_scenario_witness :
  fst (listPDFFiles (store_runtime reports_store ticking) "alba-admin" "reports/" initial_world)
    = Return [ {| key := "reports/q1.pdf";
                  lastModified := DateOf 1704067200000;
                  size := 2048;
                  etag := remove_all dquote (quoted "abc123") |} ].
Proof.
  exact (listPDFFiles_reports_scenario reports_store ticking
           (quoted "abc123") "%PDF-1.7" (quoted "ff") "notes" 1704067200001 5
           initial_world (Permutation_refl _)).
Defined.

(** C4, as amended: on a store of no more objects than the store's
    default page, the entries [listPDFFiles] returns for a prefix that is
    not empty are exactly the entries it returns for the empty prefix
    whose key starts with the prefix. *)
Theorem listPDFFiles_prefix_restricts
    (st : Store) (clock : nat -> Z) (bucketName p : string) (w1 w2 : World) :
  (List.length st <= default_page)%nat ->
  p <> EmptyString ->
  exists files_p files_all,
    fst (listPDFFiles (store_runtime st clock) bucketName p w1) = Return files_p
    /\ fst (listPDFFiles (store_runtime st clock) bucketName EmptyString w2) = Return files_all
    /\ forall f, In f files_p <-> In f files_all /\ startsWith (key f) p = true.
Proof.
  intros Hlen Hp. eexists _, _.
  split; [apply listPDFFiles_of_store|]. split; [apply listPDFFiles_of_store|].
  rewrite !firstn_page by exact Hlen.
  assert (command_prefix p = Some p) as -> by (destruct p; [contradiction|reflexivity]).
  intros f. rewrite !sort_In, !in_map_iff. split.
  - intros (o & <- & Ho). apply filter_In in Ho as [Ho Hpdf].
    apply filter_In in Ho as [Ho Hpre]. split; [|exact Hpre].
    exists o. split; [reflexivity|]. apply filter_In. split; [|exact Hpdf].
    apply filter_In. split; [exact Ho|reflexivity].
  - intros [(o & <- & Ho) Hpre]. apply filter_In in Ho as [Ho Hpdf].
    apply filter_In in Ho as [Ho _].
    exists o. split; [reflexivity|]. apply filter_In. split; [|exact Hpdf].
    apply filter_In. split; [exact Ho|exact Hpre].
Qed.

Lemma listPDFFiles_prefix_restricts_witness :
  exists files_p files_all,
    fst (listPDFFiles (store_runtime reports_store ticking) "alba-admin" "reports/q1.p"
           initial_world) = Return files_p
    /\ fst (listPDFFiles (store_runtime reports_store ticking) "alba-admin" EmptyString
              initial_world) = Return files_all
    /\ forall f, In f files_p <-> In f files_all /\ startsWith (key f) "reports/q1.p" = true.
Proof.
  refine (listPDFFiles_prefix_restricts reports_store ticking "alba-admin" "reports/q1.p"
            initial_world initial_world _ _).
  - unfold default_page. simpl. lia.
  - discriminate.
Defined.

Lemma not_In_by_key (f : S3File) (files : list S3File) :
  forallb (fun g => negb (key g =? key f)%string) files = true -> ~ In f files.
Proof.
  intros H Hin. rewrite forallb_forall in H. specialize (H f Hin).
  rewrite String.eqb_refl in H. discriminate.
Qed.

(** C4 as stated fails: the store holds a thousand and one objects; the
    listing for the prefix z/ has the entry of z/last.pdf, and the
    listing for the empty prefix, a thousand entries long, does not. *)
Lemma listPDFFiles_prefix_beyond_first_page :
  exists f,
    In f (entries (listPDFFiles (store_runtime big_store ticking) "alba-admin" "z/"
                     initial_world))
    /\ startsWith (key f) "z/" = true
    /\ List.length (entries (listPDFFiles (store_runtime big_store ticking) "alba-admin"
                               EmptyString initial_world)) = 1000%nat
    /\ ~ In f (entries (listPDFFiles (store_runtime big_store ticking) "alba-admin"
                          EmptyString initial_world)).
Proof.
  exists (stored_file (mkStored "z/last.pdf" 1704067200000 1 (quoted "ff") EmptyString)).
  split; [vm_compute; auto|]. split; [reflexivity|]. split; [vm_compute; reflexivity|].
  apply not_In_by_key. vm_compute. reflexivity.
Qed.

(** ** Reading XML with the patterns *)

Lemma prefix_append (p x : string) : String.prefix p (p ++ x) = true.
Proof.
  induction p as [|a p IH]; simpl; [destruct x; reflexivity|].
  destruct (ascii_dec a a); [exact IH|contradiction].
Qed.





Lemma free_without (c : ascii) (pat s : string) :
  without c s = true -> free (String c pat) s = true.
Proof.
  induction s as [|d s IH]; [reflexivity|].
  cbn [without free clash]. intros H. apply andb_true_iff in H as [Hd Hs].
  apply negb_true_iff in Hd. rewrite Ascii.eqb_sym, Hd, (IH Hs). reflexivity.
Qed.



Lemma lazy_until_unfold (dotall : bool) (close s : string) :
  lazy_until dotall close s
  = if String.prefix close s then Some (EmptyString, drop (String.length close) s)
    else match s with
         | EmptyString => None
         | String c s' =>
             if negb dotall && line_terminator c then None
             else match lazy_until dotall close s' with
                  | Some (capture, rest) => Some (String c capture, rest)
                  | None => None
                  end
         end.
Proof. destruct s; reflexivity. Qed.


Lemma exec_lazy_unfold (dotall : bool) (open close s : string) :
  exec_lazy dotall open close s
  = match match_lazy_here dotall open close s with
    | Some m => Some m
    | None =>
        match s with
        | EmptyString => None
        | String _ s' => exec_lazy dotall open close s'
        end
    end.
Proof. destruct s; reflexivity. Qed.



Lemma exec_digits_unfold (open close s : string) :
  exec_digits open close s
  = match match_digits_here open close s with
    | Some ds => Some ds
    | None =>
        match s with
        | EmptyString => None
        | String _ s' => exec_digits open close s'
        end
    end.
Proof. destruct s; reflexivity. Qed.




(** The rounds of the loop are enough: a match of a pattern with a
    non-empty OPEN leaves less text than it was given, so any bound from
    the length of the text on gives the same captures. *)
Lemma drop_length (n : nat) (s : string) :
  String.length (drop n s) = (String.length s - n)%nat.
Proof.
  revert s. induction n as [|n IH]; intros [|c s]; simpl; try reflexivity. apply IH.
Qed.

Lemma prefix_length (p s : string) :
  String.prefix p s = true -> (String.length p <= String.length s)%nat.
Proof.
  revert s. induction p as [|a p IH]; intros [|b s]; simpl; try discriminate; try lia.
  destruct (ascii_dec a b); [|discriminate]. intros H. specialize (IH s H). lia.
Qed.

Lemma lazy_until_shorter (dotall : bool) (close s capture rest : string) :
  lazy_until dotall close s = Some (capture, rest) ->
  (String.length rest <= String.length s)%nat.
Proof.
  revert capture. induction s as [|c s IH]; intros capture; rewrite lazy_until_unfold.
  - destruct (String.prefix close EmptyString); [|discriminate].
    intros [= _ <-]. rewrite drop_length. lia.
  - destruct (String.prefix close (String c s)).
    + intros [= _ <-]. rewrite drop_length. lia.
    + destruct (negb dotall && line_terminator c); [discriminate|].
      destruct (lazy_until dotall close s) as [[capture' rest']|]; [|discriminate].
      intros [= _ <-]. specialize (IH capture' eq_refl). simpl. lia.
Qed.

Lemma exec_lazy_shorter (dotall : bool) (open close s capture rest : string) :
  open <> EmptyString ->
  exec_lazy dotall open close s = Some (capture, rest) ->
  (String.length rest < String.length s)%nat.
Proof.
  intros Hopen. induction s as [|c s IH]; rewrite exec_lazy_unfold; unfold match_lazy_here.
  - destruct open; [contradiction|discriminate].
  - destruct (String.prefix open (String c s)) eqn:Hp.
    + destruct (lazy_until dotall close (drop (String.length open) (String c s)))
        as [[capture' rest']|] eqn:Hl.
      * intros [= _ <-]. apply lazy_until_shorter in Hl. rewrite drop_length in Hl.
        apply prefix_length in Hp. destruct open; [contradiction|]. simpl in *. lia.
      * intros H. specialize (IH H). simpl. lia.
    + intros H. specialize (IH H). simpl. lia.
Qed.

Lemma exec_all_from_rounds (dotall : bool) (open close : string) (n m : nat) (s : string) :
  open <> EmptyString ->
  (String.length s <= n)%nat -> (String.length s <= m)%nat ->
  exec_all_from n dotall open close s = exec_all_from m dotall open close s.
Proof.
  intros Hopen. revert m s. induction n as [|n IH]; intros m s Hn Hm.
  - destruct s; [|simpl in Hn; lia]. destruct m; [reflexivity|].
    cbn [exec_all_from]. rewrite exec_lazy_unfold. unfold match_lazy_here.
    destruct open; [contradiction|reflexivity].
  - destruct m as [|m].
    + destruct s; [|simpl in Hm; lia].
      cbn [exec_all_from]. rewrite exec_lazy_unfold. unfold match_lazy_here.
      destruct open; [contradiction|reflexivity].
    + cbn [exec_all_from].
      destruct (exec_lazy dotall open close s) as [[capture rest]|] eqn:He; [|reflexivity].
      apply exec_lazy_shorter in He; [|exact Hopen].
      f_equal. apply IH; lia.
Qed.

Lemma exec_all_from_enough (dotall : bool) (open close s : string) (rounds : nat) :
  open <> EmptyString ->
  (String.length s <= rounds)%nat ->
  exec_all_from rounds dotall open close s = exec_all dotall open close s.
Proof.
  intros Hopen Hr. unfold exec_all. apply exec_all_from_rounds; [exact Hopen|exact Hr|lia].
Qed.

(** ** Numerals and timestamps as text *)










Lemma truthy_append_r (a b : string) : truthy b = true -> truthy (a ++ b) = true.
Proof. destruct a; [trivial|reflexivity]. Qed.



(** ** The XML of a listing, read back *)



Section XmlFacts.
Variable rt : Runtime.



End XmlFacts.


Section ListingXmlFacts.
Variable rt : Runtime.










Lemma Forall_filter {A : Type} (P : A -> Prop) (p : A -> bool) (l : list A) :
  Forall P l -> Forall P (filter p l).
Proof.
  intros H. apply Forall_forall. intros x Hx. apply filter_In in Hx as [Hx _].
  revert x Hx. apply Forall_forall. exact H.
Qed.
End ListingXmlFacts.

(** ** Sorting by timestamp *)

Lemma has_time_dated (files : list S3File) :
  Forall dated files <-> forallb has_time files = true.
Proof.
  rewrite forallb_forall, Forall_forall.
  split; intros H f Hf; specialize (H f Hf); unfold has_time, dated in *.
  - destruct H as [t ->]. reflexivity.
  - destruct (lastModified f) as [t|]; [exists t; reflexivity|discriminate].
Qed.

Section SortByTimestamp.
Variable rt : Runtime.

(** On files that all carry a time value the sort is the stable one. *)
Lemma sort_by_lastModified_dated (files : list S3File) :
  Forall dated files ->
  sort_by_lastModified rt files = sort by_lastModified_desc files.
Proof.
  intros H. apply has_time_dated in H. unfold sort_by_lastModified.
  rewrite H. reflexivity.
Qed.

(** Whatever the timestamps, the sort rearranges the files. *)
Lemma sort_by_lastModified_permutation (files : list S3File) :
  Permutation (sort_by_lastModified rt files) files.
Proof.
  unfold sort_by_lastModified. destruct (forallb has_time files).
  - apply sort_permutation.
  - exact (proj2_sig (engine_order rt files)).
Qed.

End SortByTimestamp.





(** * Further properties of the service *)

(** ** What a listing holds *)

Section ListingContents.
Variable rt : Runtime.

Lemma to_S3File_clock (obj : _Object) (k : string) (w : World) :
  Key obj = Some k ->
  exists f w',
    to_S3File rt obj w = (Return f, w')
    /\ file_of_object obj f
    /\ calls w' = calls w /\ console w' = console w
    /\ match LastModified obj with
       | Some _ => ticks w' = ticks w
       | None => ticks w' = S (ticks w) /\ lastModified f = DateOf (now rt (ticks w))
       end.
Proof.
  intros Hk. unfold to_S3File, file_of_object, dated, bind.
  destruct (LastModified obj) as [t|] eqn:Ht; simpl.
  - eexists _, w. split; [reflexivity|]. simpl. rewrite Hk.
    repeat split; eauto. intros t' [= <-]. reflexivity.
  - eexists _, _. split; [reflexivity|]. simpl. rewrite Hk.
    repeat split; eauto; discriminate.
Qed.

(** The map reads the clock once per object without timestamp, and the
    timestamp it gives such an object is one of those reads. *)
Lemma mapM_to_S3File_clock (objs : list _Object) (w : World) :
  Forall (fun obj => pdf_object obj = true) objs ->
  exists files w',
    mapM (to_S3File rt) objs w = (Return files, w')
    /\ ticks w' = (ticks w + missing_timestamps objs)%nat
    /\ calls w' = calls w /\ console w' = console w
    /\ Forall2 (fun obj f =>
                  file_of_object obj f
                  /\ (LastModified obj = None ->
                      exists i, (ticks w <= i < ticks w')%nat
                                /\ lastModified f = DateOf (now rt i)))
               objs files.
Proof.
  intros H. revert w. induction H as [|obj objs Hobj _ IH]; intros w.
  - exists [], w. simpl. repeat split; try constructor. lia.
  - assert (exists k, Key obj = Some k) as [k Hk].
    { unfold pdf_object in Hobj. destruct (Key obj); [eauto|discriminate]. }
    destruct (to_S3File_clock obj k w Hk) as (f & w1 & E1 & Hf & Hc1 & Hl1 & Ht1).
    destruct (IH w1) as (files & w2 & E2 & Ht2 & Hc2 & Hl2 & Hfs).
    exists (f :: files), w2. cbn [mapM]. unfold bind at 1. rewrite E1.
    unfold bind at 1. rewrite E2. unfold ret.
    assert (Hticks : ticks w2 = (ticks w + missing_timestamps (obj :: objs))%nat).
    { cbn [missing_timestamps]. destruct (LastModified obj); [|destruct Ht1]; lia. }
    repeat split; try congruence.
    constructor.
    + split; [exact Hf|]. intros Hnone. rewrite Hnone in Ht1. destruct Ht1 as [Hs Hlm].
      exists (ticks w). split; [lia|exact Hlm].
    + eapply Forall2_impl; [|exact Hfs].
      intros obj' f' [Hf' Hclock]. split; [exact Hf'|].
      intros Hnone. destruct (Hclock Hnone) as (i & Hi & Hlm).
      exists i. split; [|exact Hlm].
      destruct (LastModified obj); [|destruct Ht1]; lia.
Qed.

(** [listPDFFiles] on a store that answers, with the clock it read and
    the calls it issued. *)
Lemma listPDFFiles_answered_clock (bucketName prefix : string)
    (response : ListObjectsV2Output) (w : World) :
  s3_list rt bucketName (command_prefix prefix) = Return response ->
  exists files w',
    listPDFFiles rt bucketName prefix w
      = (Return (sort by_lastModified_desc files), w')
    /\ ticks w' = (ticks w + missing_timestamps (filter pdf_object (contents_of response)))%nat
    /\ Forall2 (fun obj f =>
                  file_of_object obj f
                  /\ (LastModified obj = None ->
                      exists i, (ticks w <= i < ticks w')%nat
                                /\ lastModified f = DateOf (now rt i)))
               (filter pdf_object (contents_of response)) files.
Proof.
  intros Hs. unfold listPDFFiles, try_catch, send_list, bind, record_call, lift.
  fold (command_prefix prefix). rewrite Hs. unfold contents_of.
  destruct (Contents response) as [objs|].
  - match goal with |- context [mapM _ _ ?w0] =>
      destruct (mapM_to_S3File_clock (filter pdf_object objs) w0 (pdf_objects_filtered objs))
        as (files & w' & E & Ht & _ & _ & Hfs)
    end.
    exists files, w'. rewrite E. unfold ret. simpl in Ht, Hfs. auto.
  - eexists [], _. unfold ret. split; [reflexivity|]. simpl.
    split; [lia|constructor].
Qed.

Lemma keys_of_files (objs : list _Object) (files : list S3File) :
  Forall (fun obj => pdf_object obj = true) objs ->
  Forall2 file_of_object objs files ->
  map key files = pdf_keys objs.
Proof.
  intros Hp H. induction H as [|obj f objs files Hf _ IH]; [reflexivity|].
  inversion Hp as [|? ? Hobj Hp']; subst.
  destruct Hf as (Hk & _). cbn [map pdf_keys]. rewrite Hk, Hobj, (IH Hp'). reflexivity.
Qed.

Lemma pdf_keys_filter (objs : list _Object) :
  pdf_keys (filter pdf_object objs) = pdf_keys objs.
Proof.
  induction objs as [|obj objs IH]; [reflexivity|]. cbn [filter pdf_keys].
  destruct (pdf_object obj) eqn:Hobj.
  - cbn [pdf_keys]. rewrite Hobj, IH. reflexivity.
  - rewrite IH. destruct (Key obj); reflexivity.
Qed.
End ListingContents.

Lemma is_dot_pdf_ends_with_pdf (ext : string) :
  is_dot_pdf ext = true ->
  exists e1 e2 e3,
    ext = String "." (String e1 (String e2 (String e3 EmptyString)))
    /\ (e1 = "p" \/ e1 = "P")%char
    /\ (e2 = "d" \/ e2 = "D")%char
    /\ (e3 = "f" \/ e3 = "F")%char.
Proof.
  destruct ext as [|c0 [|c1 [|c2 [|c3 [|c4 ext]]]]]; cbn [is_dot_pdf]; try discriminate.
  intros H. apply andb_true_iff in H as [H H3]. apply andb_true_iff in H as [H H2].
  apply andb_true_iff in H as [H0 H1].
  apply Ascii.eqb_eq in H0. subst c0. exists c1, c2, c3.
  split; [reflexivity|].
  apply orb_true_iff in H1, H2, H3.
  rewrite !Ascii.eqb_eq in H1, H2, H3. auto.
Qed.

Lemma ends_dot_pdf_ends_with_pdf (k : string) :
  ends_dot_pdf k = true <-> ends_with_pdf k.
Proof.
  split.
  - induction k as [|c k IH]; cbn [ends_dot_pdf]; intros H;
      apply orb_true_iff in H as [H|H].
    + discriminate H.
    + discriminate H.
    + destruct (is_dot_pdf_ends_with_pdf _ H) as (e1 & e2 & e3 & E & H').
      exists EmptyString, e1, e2, e3. split; [exact E|exact H'].
    + destruct (IH H) as (stem & e1 & e2 & e3 & -> & H').
      exists (String c stem), e1, e2, e3. split; [reflexivity|exact H'].
  - intros (stem & e1 & e2 & e3 & -> & H1 & H2 & H3).
    induction stem as [|c stem IH].
    + destruct H1 as [-> | ->], H2 as [-> | ->], H3 as [-> | ->]; reflexivity.
    + cbn [append ends_dot_pdf]. rewrite IH. apply orb_true_r.
Qed.

(** The filter of [listPDFFiles] on a key is the test that the key ends
    with .pdf: lower-casing the key first loses nothing, and a key that
    passes is not empty. *)
Lemma pdf_filter_ends_dot_pdf (k : string) :
  truthy k && has_pdf_extension k = ends_dot_pdf k.
Proof.
  destruct (ends_dot_pdf k) eqn:He.
  - apply ends_dot_pdf_ends_with_pdf in He.
    rewrite (ends_with_pdf_has_pdf_extension k He).
    destruct He as (stem & e1 & e2 & e3 & -> & _). destruct stem; reflexivity.
  - destruct (has_pdf_extension k) eqn:Hh; [|apply andb_false_r].
    apply has_pdf_extension_ends_with_pdf, ends_dot_pdf_ends_with_pdf in Hh.
    congruence.
Qed.

Lemma pdf_keys_ending_pdf (objs : list _Object) :
  pdf_keys objs = keys_ending_pdf objs.
Proof.
  induction objs as [|obj objs IH]; [reflexivity|]. cbn [pdf_keys keys_ending_pdf].
  unfold pdf_object. destruct (Key obj) as [k|]; [|exact IH].
  rewrite pdf_filter_ends_dot_pdf, IH. reflexivity.
Qed.

(** X1: the keys of the entries [listPDFFiles] returns are, up to order
    and with their multiplicity, the keys of the objects of the response
    that end with a dot and the letters p, d, f in either case: no such
    object is lost, no other key is let in and no entry is invented. *)
Theorem listPDFFiles_keys
    (rt : Runtime) (bucketName prefix : string)
    (response : ListObjectsV2Output) (w : World) :
  s3_list rt bucketName (command_prefix prefix) = Return response ->
  exists files w',
    listPDFFiles rt bucketName prefix w = (Return files, w')
    /\ Permutation (map key files) (keys_ending_pdf (contents_of response)).
Proof.
  intros Hs.
  destruct (listPDFFiles_answered rt bucketName prefix response w Hs)
    as (files & w' & E & Hfs & _).
  exists (sort by_lastModified_desc files), w'. split; [exact E|].
  rewrite <- pdf_keys_ending_pdf, <- pdf_keys_filter.
  rewrite <- (keys_of_files _ _ (pdf_objects_filtered (contents_of response)) Hfs).
  apply Permutation_map, sort_permutation.
Qed.

Lemma listPDFFiles_keys_witness :
  exists files w',
    listPDFFiles (listing_runtime (Some mixed_listing) ticking) "alba-admin" "a/" initial_world
      = (Return files, w')
    /\ Permutation (map key files) ["a/old.pdf"; "b/BARE.PDF"; "new.pdf"].
Proof.
  exact (listPDFFiles_keys (listing_runtime (Some mixed_listing) ticking) "alba-admin" "a/"
           {| Contents := Some mixed_listing |} initial_world eq_refl).
Defined.

(** X2: an object of the response whose key passes the filter has an
    entry with its key; the size of the entry is the object's size, 0 when
    the object has none; its etag is empty when the object has no ETag;
    its timestamp is the object's, and when the object has none it is a
    read of the clock made during the call. *)
Theorem listPDFFiles_defaults
    (rt : Runtime) (bucketName prefix : string) (response : ListObjectsV2Output)
    (obj : _Object) (w : World) :
  s3_list rt bucketName (command_prefix prefix) = Return response ->
  In obj (contents_of response) ->
  pdf_object obj = true ->
  exists files w' f,
    listPDFFiles rt bucketName prefix w = (Return files, w')
    /\ In f files
    /\ Key obj = Some (key f)
    /\ size f = match Size obj with Some n => n | None => 0 end
    /\ (ETag obj = None -> etag f = EmptyString)
    /\ match LastModified obj with
       | Some t => lastModified f = DateOf t
       | None => exists i, (ticks w <= i < ticks w')%nat
                           /\ lastModified f = DateOf (now rt i)
       end.
Proof.
  intros Hs Hin Hpdf.
  destruct (listPDFFiles_answered_clock rt bucketName prefix response w Hs)
    as (files & w' & E & _ & Hfs).
  assert (Hobj : In obj (filter pdf_object (contents_of response)))
    by (apply filter_In; auto).
  destruct (Forall2_In_l _ _ _ _ Hfs Hobj) as (f & Hf & (Hk & Hsz & He & _ & Ht) & Hclock).
  exists (sort by_lastModified_desc files), w', f.
  split; [exact E|]. split; [apply sort_In; exact Hf|]. split; [exact Hk|].
  split; [|split].
  - rewrite Hsz. unfold size_of. destruct (Size obj) as [n|]; [|reflexivity].
    destruct (Z.eqb_spec n 0); congruence.
  - intros Hnone. rewrite He. unfold etag_of. rewrite Hnone. reflexivity.
  - destruct (LastModified obj) as [t|]; [apply Ht; reflexivity|apply Hclock; reflexivity].
Qed.

Lemma listPDFFiles_defaults_witness :
  exists files w' f,
    listPDFFiles (listing_runtime (Some mixed_listing) ticking) "alba-admin" "" initial_world
      = (Return files, w')
    /\ In f files
    /\ Some "b/BARE.PDF" = Some (key f)
    /\ size f = 0
    /\ (@None string = None -> etag f = EmptyString)
    /\ exists i, (0 <= i < ticks w')%nat /\ lastModified f = DateOf (ticking i).
Proof.
  exact (listPDFFiles_defaults (listing_runtime (Some mixed_listing) ticking) "alba-admin" ""
           {| Contents := Some mixed_listing |} (mkObject (Some "b/BARE.PDF") None None None)
           initial_world eq_refl (or_intror (or_introl eq_refl)) eq_refl).
Defined.

(** X3: whatever the store answers, [listPDFFiles] issues exactly one
    command, a list command for the bucket given, which carries the
    prefix when it is not empty and none when it is; it reads the clock
    once for each object it keeps that has no timestamp and not at all
    when the store call throws; it writes to the console only when the
    store call throws. *)
Theorem listPDFFiles_effects
    (rt : Runtime) (bucketName prefix : string) (w : World) :
  let w' := snd (listPDFFiles rt bucketName prefix w) in
  calls w'
    = calls w ++ [ListObjectsV2Command bucketName
                    (match prefix with EmptyString => None | _ => Some prefix end)]
  /\ match s3_list rt bucketName (command_prefix prefix) with
     | Return response =>
         ticks w' = (ticks w + missing_timestamps (filter pdf_object (contents_of response)))%nat
         /\ console w' = console w
     | Throw _ =>
         ticks w' = ticks w
         /\ console w' = console w ++ ["Error listing S3 files:"]
     end.
Proof.
  cbv zeta.
  assert (Hp : match prefix with EmptyString => None | _ => Some prefix end
               = command_prefix prefix) by (destruct prefix; reflexivity).
  rewrite Hp.
  destruct (s3_list rt bucketName (command_prefix prefix)) as [response|e] eqn:Hs.
  - destruct (listPDFFiles_answered rt bucketName prefix response w Hs)
      as (files & w1 & E & _ & Hc & Hl).
    destruct (listPDFFiles_answered_clock rt bucketName prefix response w Hs)
      as (files' & w2 & E' & Ht & _).
    rewrite E in E'. injection E' as _ <-. rewrite E. simpl. auto.
  - rewrite (listPDFFiles_failed rt bucketName prefix e w Hs). simpl. auto.
Qed.

(** ** The order of equal timestamps *)

Lemma modified_at_dated (t tx : Z) (x : S3File) :
  lastModified x = DateOf tx -> modified_at t x = (tx =? t).
Proof. unfold modified_at. intros ->. reflexivity. Qed.

Lemma insert_modified_at (t : Z) (x : S3File) (l : list S3File) :
  dated x -> Forall dated l ->
  filter (modified_at t) (insert by_lastModified_desc x l)
  = filter (modified_at t) (x :: l).
Proof.
  intros [tx Hx] Hl. induction Hl as [|y l [ty Hy] _ IH]; [reflexivity|].
  cbn [insert]. rewrite (SortCompare_dated x y tx ty Hx Hy).
  destruct (Z.leb_spec (ty - tx) 0) as [Hle|Hgt]; [reflexivity|].
  cbn [filter]. rewrite IH. cbn [filter].
  rewrite (modified_at_dated t tx x Hx), (modified_at_dated t ty y Hy).
  destruct (Z.eqb_spec tx t), (Z.eqb_spec ty t); try reflexivity. lia.
Qed.

(** The sort is stable: the files of one timestamp keep their order. *)
Lemma sort_modified_at (t : Z) (l : list S3File) :
  Forall dated l ->
  filter (modified_at t) (sort by_lastModified_desc l) = filter (modified_at t) l.
Proof.
  induction 1 as [|x l Hx Hl IH]; [reflexivity|].
  cbn [sort]. rewrite insert_modified_at; [|exact Hx|apply sort_Forall; exact Hl].
  cbn [filter]. rewrite IH. reflexivity.
Qed.

Lemma pdf_keys_stamped_at (t : Z) (objs : list _Object) (files : list S3File) :
  Forall (fun obj => pdf_object obj = true) objs ->
  Forall (fun obj => stamped obj = true) objs ->
  Forall2 file_of_object objs files ->
  map key (filter (modified_at t) files) = pdf_keys (filter (stamped_at t) objs).
Proof.
  intros Hp Hs H. induction H as [|obj f objs files Hf _ IH]; [reflexivity|].
  inversion Hp as [|? ? Hobj Hp']; inversion Hs as [|? ? Hst Hs']; subst.
  destruct Hf as (Hk & _ & _ & _ & Ht).
  unfold stamped in Hst. cbn [filter]. unfold stamped_at at 1.
  destruct (LastModified obj) as [t'|]; [|discriminate].
  rewrite (modified_at_dated t t' f (Ht t' eq_refl)).
  destruct (t' =? t); cbn [map pdf_keys]; rewrite ?Hk, ?Hobj, (IH Hp' Hs'); reflexivity.
Qed.

Lemma pdf_keys_filter_comm (p : _Object -> bool) (objs : list _Object) :
  pdf_keys (filter p (filter pdf_object objs)) = pdf_keys (filter p objs).
Proof.
  induction objs as [|obj objs IH]; [reflexivity|]. cbn [filter].
  destruct (pdf_object obj) eqn:Hobj; cbn [filter]; destruct (p obj); cbn [pdf_keys];
    rewrite ?Hobj, IH; try reflexivity.
  destruct (Key obj); reflexivity.
Qed.

(** X4: when every object of the response has a timestamp, the entries
    [listPDFFiles] returns for one timestamp come in the order the
    response lists their objects: the sort never swaps equal
    timestamps. *)
Theorem listPDFFiles_stable
    (rt : Runtime) (bucketName prefix : string)
    (response : ListObjectsV2Output) (w : World) :
  s3_list rt bucketName (command_prefix prefix) = Return response ->
  Forall (fun obj => stamped obj = true) (contents_of response) ->
  exists files w',
    listPDFFiles rt bucketName prefix w = (Return files, w')
    /\ forall t,
         map key (filter (modified_at t) files)
         = pdf_keys (filter (stamped_at t) (contents_of response)).
Proof.
  intros Hs Hst.
  destruct (listPDFFiles_answered rt bucketName prefix response w Hs)
    as (files & w' & E & Hfs & _).
  exists (sort by_lastModified_desc files), w'. split; [exact E|]. intros t.
  rewrite sort_modified_at.
  - rewrite (pdf_keys_stamped_at t _ _ (pdf_objects_filtered _) (Forall_filter _ _ _ Hst) Hfs).
    apply pdf_keys_filter_comm.
  - apply (Forall2_Forall_r file_of_object (fun _ => True) dated _ _
             (fun obj f _ Hf => proj1 (proj2 (proj2 (proj2 Hf)))) Hfs).
    apply Forall_forall. trivial.
Qed.

Lemma listPDFFiles_stable_witness :
  exists files w',
    listPDFFiles (listing_runtime (Some tied_listing) ticking) "alba-admin" "" initial_world
      = (Return files, w')
    /\ forall t,
         map key (filter (modified_at t) files)
         = pdf_keys (filter (stamped_at t) tied_listing).
Proof.
  refine (listPDFFiles_stable (listing_runtime (Some tied_listing) ticking) "alba-admin" ""
            {| Contents := Some tied_listing |} initial_world eq_refl _).
  repeat constructor.
Defined.

(** ** Streaming, every outcome *)

(** X5: whatever the store answers, [getS3FileStream] issues exactly
    one command, a get for the given bucket and key, and never reads the
    clock.  It returns only when the store answers with a body and the
    last piece of the key between slashes, the file name of the
    Content-Disposition header, has no NUL, line feed or carriage return:
    then with status 200 and the body's bytes as they are.  When the
    piece has such a character, when the store call throws and when it
    answers without a body, the call throws, always with the one message
    Failed to stream file from S3, after one line on the console. *)
Theorem getS3FileStream_outcome
    (rt : Runtime) (bucketName k : string) (w : World) :
  let run := getS3FileStream rt bucketName k w in
  calls (snd run) = calls w ++ [GetObjectCommand bucketName k]
  /\ ticks (snd run) = ticks w
  /\ exists seg,
       last_segment k seg
       /\ match s3_get rt bucketName k with
          | Return {| Body := Some stream; ContentLength := len |} =>
              if header_value seg
              then fst run = Return (mkResponse 200 (stream_headers k len) (StreamBody stream))
                   /\ console (snd run) = console w
              else fst run = Throw "Failed to stream file from S3"
                   /\ console (snd run) = console w ++ ["Error streaming S3 file:"]
          | _ =>
              fst run = Throw "Failed to stream file from S3"
              /\ console (snd run) = console w ++ ["Error streaming S3 file:"]
          end.
Proof.
  cbv zeta. destruct (pop_split_last_segment k) as (seg & Hp & Hseg).
  destruct (s3_get rt bucketName k) as [[[stream|] len]|e] eqn:Hs.
  - rewrite (getS3FileStream_streamed rt bucketName k seg stream _ w Hs eq_refl Hp).
    cbn [ContentLength].
    destruct (header_value seg) eqn:Hh; (split; [reflexivity|]); (split; [reflexivity|]);
      exists seg; (split; [exact Hseg|]); rewrite Hh; split; reflexivity.
  - rewrite (getS3FileStream_failed rt bucketName k w)
      by (unfold no_body; rewrite Hs; reflexivity).
    split; [reflexivity|]. split; [reflexivity|].
    exists seg. split; [exact Hseg|]. split; reflexivity.
  - rewrite (getS3FileStream_failed rt bucketName k w)
      by (unfold no_body; rewrite Hs; exact I).
    split; [reflexivity|]. split; [reflexivity|].
    exists seg. split; [exact Hseg|]. split; reflexivity.
Qed.

(** ** The public listing *)

Section SimpleFacts.
Variable rt : Runtime.

Lemma listPDFFilesSimple_fetched (bucketName prefix : string) (fetched : FetchResponse) (w : World) :
  http_fetch rt (list_url bucketName prefix) = Return fetched ->
  ok fetched = true ->
  listPDFFilesSimple rt bucketName prefix w
    = (Return (sort_by_lastModified rt
                 (filter (fun file => has_pdf_extension (key file))
                    (parseS3ListResponse rt (text fetched)))),
       mkWorld (ticks w) (calls w ++ [FetchCall (list_url bucketName prefix)]) (console w)).
Proof.
  intros Hf Hok. unfold listPDFFilesSimple, try_catch, fetch, bind, record_call, lift.
  rewrite Hf, Hok. reflexivity.
Qed.

Lemma listPDFFilesSimple_refused (bucketName prefix : string) (w : World) :
  match http_fetch rt (list_url bucketName prefix) with
  | Return fetched => ok fetched = false
  | Throw _ => True
  end ->
  listPDFFilesSimple rt bucketName prefix w
    = (Throw "Failed to list files from S3",
       mkWorld (ticks w) (calls w ++ [FetchCall (list_url bucketName prefix)])
               (console w ++ ["Error listing S3 files:"])).
Proof.
  intros H. unfold listPDFFilesSimple, try_catch, fetch, bind, record_call, lift.
  destruct (http_fetch rt (list_url bucketName prefix)) as [fetched|e];
    [rewrite H|]; reflexivity.
Qed.
End SimpleFacts.

(** X6: whatever the endpoint answers, [listPDFFilesSimple] issues
    exactly one call, a fetch of the list URL of the bucket and prefix,
    and never reads the clock.  When the fetch resolves to an ok response
    it returns a rearrangement of the files with a .pdf key that
    [parseS3ListResponse] reads in the text: each of them as often as it
    was read, none lost and none added, whatever order the engine gives
    to entries whose timestamp did not parse.  When the fetch throws or
    the response is not ok it throws, always with the one message Failed
    to list files from S3, after one line on the console: the status of
    the response does not reach the caller. *)
Theorem listPDFFilesSimple_outcome
    (rt : Runtime) (bucketName prefix : string) (w : World) :
  let run := listPDFFilesSimple rt bucketName prefix w in
  calls (snd run) = calls w ++ [FetchCall (list_url bucketName prefix)]
  /\ ticks (snd run) = ticks w
  /\ match http_fetch rt (list_url bucketName prefix) with
     | Return {| ok := true; fetch_status := _; statusText := _; text := xmlText |} =>
         (exists files,
            fst run = Return files
            /\ Permutation files
                 (filter (fun file => has_pdf_extension (key file))
                    (parseS3ListResponse rt xmlText)))
         /\ console (snd run) = console w
     | _ =>
         fst run = Throw "Failed to list files from S3"
         /\ console (snd run) = console w ++ ["Error listing S3 files:"]
     end.
Proof.
  cbv zeta.
  destruct (http_fetch rt (list_url bucketName prefix)) as [[[|] st stt xmlText]|e] eqn:Hf.
  - rewrite (listPDFFilesSimple_fetched rt bucketName prefix _ w Hf eq_refl).
    split; [reflexivity|]. split; [reflexivity|]. split; [|reflexivity].
    eexists. split; [reflexivity|]. apply sort_by_lastModified_permutation.
  - rewrite (listPDFFilesSimple_refused rt bucketName prefix w)
      by (rewrite Hf; reflexivity).
    repeat split.
  - rewrite (listPDFFilesSimple_refused rt bucketName prefix w)
      by (rewrite Hf; exact I).
    repeat split.
Qed.

(** X7: when the fetch resolves to an ok response, whatever its text,
    every entry [listPDFFilesSimple] returns has a key that ends with
    .pdf, letter case aside, and is a file that [parseS3ListResponse]
    reads in the text; when the timestamps of those files all parse to a
    time value, the list is ordered most recent first. *)
Theorem listPDFFilesSimple_pdf_most_recent_first
    (rt : Runtime) (bucketName prefix : string) (fetched : FetchResponse) (w : World) :
  http_fetch rt (list_url bucketName prefix) = Return fetched ->
  ok fetched = true ->
  exists files w',
    listPDFFilesSimple rt bucketName prefix w = (Return files, w')
    /\ Forall (fun f => ends_with_pdf (key f)) files
    /\ (forall f, In f files -> In f (parseS3ListResponse rt (text fetched)))
    /\ (Forall dated (parseS3ListResponse rt (text fetched)) -> non_increasing files).
Proof.
  intros Hf Hok. eexists _, _.
  split; [apply (listPDFFilesSimple_fetched rt bucketName prefix fetched w Hf Hok)|].
  pose proof (sort_by_lastModified_permutation rt
                (filter (fun file => has_pdf_extension (key file))
                   (parseS3ListResponse rt (text fetched)))) as Hperm.
  split; [|split].
  - apply (Permutation_Forall (Permutation_sym Hperm)), Forall_forall.
    intros f Hin. apply filter_In in Hin as [_ Hin].
    apply has_pdf_extension_ends_with_pdf. exact Hin.
  - intros f Hin. apply (Permutation_in _ Hperm) in Hin.
    apply filter_In in Hin. tauto.
  - intros Hd. rewrite sort_by_lastModified_dated by (apply Forall_filter; exact Hd).
    apply sort_non_increasing, Forall_filter. exact Hd.
Qed.

Lemma listPDFFilesSimple_pdf_most_recent_first_witness :
  exists files w',
    listPDFFilesSimple (listing_runtime (Some complete_listing) ticking)
      "alba-admin" "reports/" initial_world = (Return files, w')
    /\ Forall (fun f => ends_with_pdf (key f)) files
    /\ (forall f, In f files ->
        In f (parseS3ListResponse (listing_runtime (Some complete_listing) ticking)
                (xml_of_listing (Some complete_listing))))
    /\ (Forall dated (parseS3ListResponse (listing_runtime (Some complete_listing) ticking)
                        (xml_of_listing (Some complete_listing))) ->
        non_increasing files).
Proof.
  exact (listPDFFilesSimple_pdf_most_recent_first
           (listing_runtime (Some complete_listing) ticking) "alba-admin" "reports/"
           {| ok := true; fetch_status := 200; statusText := "OK";
              text := xml_of_listing (Some complete_listing) |}
           initial_world eq_refl eq_refl).
Defined.

(** ** What the patterns capture *)

Lemma prefix_split (p s : string) :
  String.prefix p s = true -> s = (p ++ drop (String.length p) s)%string.
Proof.
  revert s. induction p as [|a p IH]; intros [|b s]; simpl; try discriminate; try reflexivity.
  destruct (ascii_dec a b) as [->|]; [|discriminate].
  intros H. rewrite <- (IH s H). reflexivity.
Qed.

Lemma occurs_here (pat before after : string) : occurs pat (before ++ pat ++ after).
Proof. exists before, after. reflexivity. Qed.

Lemma occurs_inside (pat s before after : string) :
  occurs pat s -> occurs pat (before ++ s ++ after).
Proof.
  intros (a & b & ->). exists (before ++ a)%string, (b ++ after)%string.
  rewrite !append_assoc. reflexivity.
Qed.

Lemma occurs_left (a b after : string) : occurs a (a ++ b ++ after).
Proof. exists EmptyString, (b ++ after)%string. reflexivity. Qed.

Lemma occurs_middle (a b c after : string) : occurs b (a ++ b ++ c ++ after).
Proof. exists a, (c ++ after)%string. reflexivity. Qed.

Lemma occurs_right (a b c after : string) : occurs c (a ++ b ++ c ++ after).
Proof.
  exists (a ++ b)%string, after. rewrite !append_assoc. reflexivity.
Qed.

Lemma occurs_empty (pat : string) : occurs pat EmptyString -> pat = EmptyString.
Proof.
  intros (a & b & H). destruct a; [|discriminate]. destruct pat; [reflexivity|discriminate].
Qed.

(** The lazy capture is what stands before the first CLOSE: the text is
    the capture, CLOSE and the rest; CLOSE does not stand in the capture;
    without the s flag the capture is on one line. *)
Lemma lazy_until_split (dotall : bool) (close s capture rest : string) :
  close <> EmptyString ->
  lazy_until dotall close s = Some (capture, rest) ->
  s = (capture ++ close ++ rest)%string
  /\ ~ occurs close capture
  /\ (dotall = false -> one_line capture = true).
Proof.
  intros Hclose. revert capture. induction s as [|c s IH]; intros capture;
    rewrite lazy_until_unfold.
  - destruct (String.prefix close EmptyString) eqn:Hp; [|discriminate].
    destruct close; [contradiction|discriminate].
  - destruct (String.prefix close (String c s)) eqn:Hp.
    + intros [= <- <-]. split; [apply (prefix_split _ _ Hp)|]. split; [|reflexivity].
      intros H. apply occurs_empty in H. contradiction.
    + destruct (negb dotall && line_terminator c) eqn:Hterm; [discriminate|].
      destruct (lazy_until dotall close s) as [[capture' rest']|]; [|discriminate].
      intros [= <- ->]. destruct (IH capture' eq_refl) as (Hs & Hfree & Hline).
      split; [cbn [append]; rewrite <- Hs; reflexivity|]. split.
      * intros (a & b & Hab). destruct a as [|a0 a].
        -- cbn [append] in Hab.
           assert (String.prefix close (String c s) = true) as Hp'.
           { rewrite Hs. change (String c (capture' ++ close ++ rest))
               with (String c capture' ++ close ++ rest)%string.
             rewrite Hab, append_assoc. apply prefix_append. }
           congruence.
        -- injection Hab as _ Hab. apply Hfree. exists a, b. exact Hab.
      * intros ->. cbn [one_line]. simpl in Hterm. rewrite Hterm. apply Hline. reflexivity.
Qed.

Lemma exec_lazy_split (dotall : bool) (open close s capture rest : string) :
  close <> EmptyString ->
  exec_lazy dotall open close s = Some (capture, rest) ->
  (exists before, s = (before ++ open ++ capture ++ close ++ rest)%string)
  /\ ~ occurs close capture
  /\ (dotall = false -> one_line capture = true).
Proof.
  intros Hclose. induction s as [|c s IH]; rewrite exec_lazy_unfold; unfold match_lazy_here.
  - destruct (String.prefix open EmptyString) eqn:Hp; [|discriminate].
    rewrite lazy_until_unfold.
    destruct (String.prefix close (drop (String.length open) EmptyString)) eqn:Hc.
    + destruct open; [|discriminate]. destruct close; [contradiction|discriminate].
    + destruct (drop (String.length open) EmptyString) eqn:Hd; [discriminate|].
      destruct open; discriminate.
  - destruct (String.prefix open (String c s)) eqn:Hp.
    + destruct (lazy_until dotall close (drop (String.length open) (String c s)))
        as [[capture' rest']|] eqn:Hl.
      * intros [= <- <-]. destruct (lazy_until_split _ _ _ _ _ Hclose Hl) as (Hs & Hfree & Hline).
        split; [|split; assumption]. exists EmptyString. cbn [append].
        rewrite <- Hs. apply (prefix_split _ _ Hp).
      * intros H. destruct (IH H) as ((before & ->) & Hrest).
        split; [|exact Hrest]. exists (String c before). reflexivity.
    + intros H. destruct (IH H) as ((before & ->) & Hrest).
      split; [|exact Hrest]. exists (String c before). reflexivity.
Qed.

Lemma span_digits_split (s ds rest : string) :
  span_digits s = (ds, rest) -> s = (ds ++ rest)%string /\ all_digits ds = true.
Proof.
  revert ds. induction s as [|c s IH]; intros ds; cbn [span_digits].
  - intros [= <- <-]. split; reflexivity.
  - destruct (is_digit c) eqn:Hc.
    + destruct (span_digits s) as [ds' rest'].
      intros [= <- <-]. destruct (IH ds' eq_refl) as [-> Hd].
      split; [reflexivity|]. cbn [all_digits]. rewrite Hc. exact Hd.
    + intros [= <- <-]. split; reflexivity.
Qed.

Lemma exec_digits_split (open close s ds : string) :
  exec_digits open close s = Some ds ->
  (exists before after, s = (before ++ open ++ ds ++ close ++ after)%string)
  /\ all_digits ds = true /\ truthy ds = true.
Proof.
  induction s as [|c s IH]; rewrite exec_digits_unfold; unfold match_digits_here.
  - destruct (String.prefix open EmptyString) eqn:Hp; [|discriminate].
    destruct open; [|discriminate]. cbn. discriminate.
  - destruct (String.prefix open (String c s)) eqn:Hp.
    + destruct (span_digits (drop (String.length open) (String c s))) as [ds' rest] eqn:Hd.
      destruct (truthy ds' && String.prefix close rest) eqn:Hok.
      * intros [= <-]. apply andb_true_iff in Hok as [Hne Hcl].
        apply span_digits_split in Hd as [Hd Hdig].
        split; [|split; assumption]. exists EmptyString, (drop (String.length close) rest).
        cbn [append]. rewrite <- (prefix_split _ _ Hcl), <- Hd. apply (prefix_split _ _ Hp).
      * intros H. destruct (IH H) as ((before & after & ->) & Hrest).
        split; [|exact Hrest]. exists (String c before), after. reflexivity.
    + intros H. destruct (IH H) as ((before & after & ->) & Hrest).
      split; [|exact Hrest]. exists (String c before), after. reflexivity.
Qed.

Lemma parseInt_from_nonneg (acc : Z) (s : string) : 0 <= acc -> 0 <= parseInt_from acc s.
Proof.
  revert acc. induction s as [|c s IH]; intros acc H; cbn [parseInt_from]; [exact H|].
  destruct (is_digit c); [|exact H]. apply IH. lia.
Qed.

Lemma exec_all_from_In (rounds : nat) (open close s capture : string) :
  close <> EmptyString ->
  In capture (exec_all_from rounds true open close s) ->
  occurs (open ++ capture ++ close) s.
Proof.
  intros Hclose. revert s. induction rounds as [|rounds IH]; intros s; [contradiction|].
  cbn [exec_all_from].
  destruct (exec_lazy true open close s) as [[capture' rest]|] eqn:He; [|contradiction].
  destruct (exec_lazy_split _ _ _ _ _ _ Hclose He) as ((before & ->) & _).
  intros [<-|Hin].
  - exists before, rest. rewrite !append_assoc. reflexivity.
  - specialize (IH rest Hin).
    replace (before ++ open ++ capture' ++ close ++ rest)%string
      with ((before ++ open ++ capture' ++ close) ++ rest ++ EmptyString)%string
      by (rewrite !append_assoc, append_empty_r; reflexivity).
    apply occurs_inside. exact IH.
Qed.

Lemma occurs_trans (a b c : string) : occurs a b -> occurs b c -> occurs a c.
Proof. intros Hab (before & after & ->). apply occurs_inside. exact Hab. Qed.

Lemma truthy_not_empty (s : string) : truthy s = true -> s <> EmptyString.
Proof. destruct s; [discriminate|discriminate]. Qed.

Section ParseFacts.
Variable rt : Runtime.

(** What a file of a block tells of the block. *)
Lemma parse_content_In (content : string) (f : S3File) :
  In f (parse_content rt content) ->
  key f <> EmptyString /\ etag f <> EmptyString
  /\ one_line (key f) = true /\ one_line (etag f) = true
  /\ 0 <= size f
  /\ occurs ("<Key>" ++ key f ++ "</Key>") content
  /\ occurs (("<ETag>" ++ String dquote EmptyString) ++ etag f ++ String dquote "</ETag>") content
  /\ ~ occurs "</Key>" (key f)
  /\ ~ occurs (String dquote "</ETag>") (etag f).
Proof.
  unfold parse_content.
  destruct (exec_lazy false "<Key>" "</Key>" content) as [[k r1]|] eqn:E1; [|contradiction].
  destruct (exec_lazy false "<LastModified>" "</LastModified>" content) as [[lm r2]|];
    [|contradiction].
  destruct (exec_digits "<Size>" "</Size>" content) as [sz|]; [|contradiction].
  destruct (exec_lazy false ("<ETag>" ++ String dquote EmptyString)
              (String dquote "</ETag>") content) as [[e r3]|] eqn:E3; [|contradiction].
  destruct (truthy k && truthy lm && truthy sz && truthy e) eqn:Ht; [|contradiction].
  apply andb_true_iff in Ht as [Ht He]. apply andb_true_iff in Ht as [Ht _].
  apply andb_true_iff in Ht as [Hk _].
  intros [<-|[]]. cbn [key etag size].
  assert (Hc1 : "</Key>" <> EmptyString) by discriminate.
  assert (Hc3 : String dquote "</ETag>" <> EmptyString) by discriminate.
  destruct (exec_lazy_split _ _ _ _ _ _ Hc1 E1) as ((b1 & H1) & Hf1 & Hl1).
  destruct (exec_lazy_split _ _ _ _ _ _ Hc3 E3) as ((b3 & H3) & Hf3 & Hl3).
  assert (Hsize : 0 <= parseInt sz) by (apply parseInt_from_nonneg; lia).
  assert (Hok : occurs ("<Key>" ++ k ++ "</Key>") content).
  { exists b1, r1. rewrite H1, !append_assoc. reflexivity. }
  assert (Hoe : occurs (("<ETag>" ++ String dquote EmptyString) ++ e ++ String dquote "</ETag>")
                  content).
  { exists b3, r3. rewrite H3, !append_assoc. reflexivity. }
  repeat split; auto using truthy_not_empty.
Qed.
End ParseFacts.

(** X8: [parseS3ListResponse] invents nothing.  Whatever the text, every
    file it returns has a key and an etag that are not empty and hold no
    line break, and a size that is not negative; its key stands in the
    text between the Key tags and holds no closing Key tag; its etag
    stands in the text between the ETag tags and double quotes. *)
Theorem parseS3ListResponse_reads_the_text (rt : Runtime) (xmlText : string) (f : S3File) :
  In f (parseS3ListResponse rt xmlText) ->
  key f <> EmptyString /\ etag f <> EmptyString
  /\ one_line (key f) = true /\ one_line (etag f) = true
  /\ 0 <= size f
  /\ occurs ("<Key>" ++ key f ++ "</Key>") xmlText
  /\ occurs (("<ETag>" ++ String dquote EmptyString) ++ etag f ++ String dquote "</ETag>") xmlText
  /\ ~ occurs "</Key>" (key f).
Proof.
  unfold parseS3ListResponse, exec_all. intros Hin.
  apply in_flat_map in Hin as (content & Hc & Hf).
  apply exec_all_from_In in Hc; [|discriminate].
  assert (Hcontent : occurs content xmlText).
  { destruct Hc as (a & b & ->). exists (a ++ "<Contents>")%string, ("</Contents>" ++ b)%string.
    rewrite !append_assoc. reflexivity. }
  destruct (parse_content_In rt content f Hf)
    as (Hk & He & Hlk & Hle & Hs & Hok & Hoe & Hfk & _).
  repeat split; auto; eapply occurs_trans; eassumption.
Qed.

Lemma parseS3ListResponse_reads_the_text_witness :
  "reports/q1.pdf" <> EmptyString /\ "abc123" <> EmptyString
  /\ one_line "reports/q1.pdf" = true /\ one_line "abc123" = true
  /\ 0 <= 2048
  /\ occurs ("<Key>" ++ "reports/q1.pdf" ++ "</Key>") (xml_of_listing (Some complete_listing))
  /\ occurs (("<ETag>" ++ String dquote EmptyString) ++ "abc123" ++ String dquote "</ETag>")
       (xml_of_listing (Some complete_listing))
  /\ ~ occurs "</Key>" "reports/q1.pdf".
Proof.
  refine (parseS3ListResponse_reads_the_text
            (listing_runtime (Some complete_listing) ticking)
            (xml_of_listing (Some complete_listing))
            {| key := "reports/q1.pdf"; lastModified := DateOf 1704067200000;
               size := 2048; etag := "abc123" |} _).
  vm_compute. auto.
Defined.

Lemma free_append_r (pat a b : string) : free pat (a ++ b) = true -> free pat b = true.
Proof.
  induction a as [|c a IH]; [trivial|]. cbn [append free].
  intros H. apply andb_true_iff in H. tauto.
Qed.

Lemma clash_self (pat x : string) : clash pat (pat ++ x) = false.
Proof.
  induction pat as [|a pat IH]; [destruct x; reflexivity|].
  cbn [append clash]. rewrite Ascii.eqb_refl. exact IH.
Qed.

(** Text free of a pattern does not hold it. *)
Lemma free_not_occurs (pat s : string) :
  pat <> EmptyString -> free pat s = true -> ~ occurs pat s.
Proof.
  intros Hpat Hfree (before & after & ->). apply free_append_r in Hfree.
  destruct pat as [|a pat]; [contradiction|].
  change (clash (String a pat) (String a pat ++ after)
          && free (String a pat) (pat ++ after) = true) in Hfree.
  rewrite clash_self in Hfree. discriminate.
Qed.

Section MissingTags.
Variable rt : Runtime.

Lemma exec_lazy_occurs (dotall : bool) (open close s capture rest : string) :
  close <> EmptyString ->
  exec_lazy dotall open close s = Some (capture, rest) ->
  occurs open s /\ occurs close s.
Proof.
  intros Hclose He. destruct (exec_lazy_split _ _ _ _ _ _ Hclose He) as ((before & ->) & _).
  split.
  - exists before, (capture ++ close ++ rest)%string. reflexivity.
  - exists (before ++ open ++ capture)%string, rest. rewrite !append_assoc. reflexivity.
Qed.

Lemma exec_digits_occurs (open close s ds : string) :
  exec_digits open close s = Some ds -> occurs open s /\ occurs close s.
Proof.
  intros He. destruct (exec_digits_split _ _ _ _ He) as ((before & after & ->) & _).
  split.
  - exists before, (ds ++ close ++ after)%string. reflexivity.
  - exists (before ++ open ++ ds)%string, after. rewrite !append_assoc. reflexivity.
Qed.
End MissingTags.

(** X9: a block in which one of the eight tags does not stand (the
    opening or the closing tag of Key, LastModified or Size, the opening
    ETag tag with its double quote or the double quote with the closing
    ETag tag) gives no file: [parseS3ListResponse] skips the entry and
    fills in no default. *)
Theorem parse_content_needs_every_tag (rt : Runtime) (content tag : string) :
  In tag wanted_tags ->
  ~ occurs tag content ->
  parse_content rt content = [].
Proof.
  intros Htag Hno. unfold parse_content.
  assert (Hc1 : "</Key>" <> EmptyString) by discriminate.
  assert (Hc2 : "</LastModified>" <> EmptyString) by discriminate.
  assert (Hc3 : String dquote "</ETag>" <> EmptyString) by discriminate.
  destruct (exec_lazy false "<Key>" "</Key>" content) as [[k r1]|] eqn:E1; [|reflexivity].
  destruct (exec_lazy false "<LastModified>" "</LastModified>" content) as [[lm r2]|] eqn:E2;
    [|reflexivity].
  destruct (exec_digits "<Size>" "</Size>" content) as [sz|] eqn:E4; [|reflexivity].
  destruct (exec_lazy false ("<ETag>" ++ String dquote EmptyString)
              (String dquote "</ETag>") content) as [[e r3]|] eqn:E3; [|reflexivity].
  exfalso.
  destruct (exec_lazy_occurs _ _ _ _ _ _ Hc1 E1) as [? ?].
  destruct (exec_lazy_occurs _ _ _ _ _ _ Hc2 E2) as [? ?].
  destruct (exec_lazy_occurs _ _ _ _ _ _ Hc3 E3) as [? ?].
  destruct (exec_digits_occurs _ _ _ _ E4) as [? ?].
  unfold wanted_tags in Htag. cbn [In] in Htag.
  repeat (destruct Htag as [<-|Htag]; [contradiction|]). exact Htag.
Qed.

Lemma parse_content_needs_every_tag_witness :
  parse_content (listing_runtime None ticking)
    (xml_content (mkObject (Some "a.pdf") (Some 1704067200000) (Some 2048) None)) = [].
Proof.
  refine (parse_content_needs_every_tag (listing_runtime None ticking)
            (xml_content (mkObject (Some "a.pdf") (Some 1704067200000) (Some 2048) None))
            (String dquote "</ETag>") _ _).
  - unfold wanted_tags. simpl. tauto.
  - apply free_not_occurs; [discriminate|vm_compute; reflexivity].
Defined.

(** X10: a text in which the opening or the closing Contents tag does
    not stand gives the empty list, whatever else it holds: an error
    document or an empty listing is read as no files. *)
Theorem parseS3ListResponse_without_Contents (rt : Runtime) (xmlText : string) :
  ~ occurs "<Contents>" xmlText \/ ~ occurs "</Contents>" xmlText ->
  parseS3ListResponse rt xmlText = [].
Proof.
  intros Hno. unfold parseS3ListResponse, exec_all.
  destruct (String.length xmlText) as [|rounds]; [reflexivity|].
  cbn [exec_all_from].
  destruct (exec_lazy true "<Contents>" "</Contents>" xmlText) as [[capture rest]|] eqn:He;
    [|reflexivity].
  exfalso.
  assert (Hc : "</Contents>" <> EmptyString) by discriminate.
  destruct (exec_lazy_occurs true _ _ _ _ _ Hc He) as [? ?]. tauto.
Qed.

Lemma parseS3ListResponse_without_Contents_witness :
  parseS3ListResponse (listing_runtime None ticking) (xml_of_listing None) = [].
Proof.
  refine (parseS3ListResponse_without_Contents (listing_runtime None ticking)
            (xml_of_listing None) (or_introl _)).
  apply free_not_occurs; [discriminate|vm_compute; reflexivity].
Defined.

Lemma without_append (c : ascii) (a b : string) :
  without c (a ++ b) = without c a && without c b.
Proof.
  induction a as [|d a IH]; [reflexivity|]. cbn [append without].
  rewrite IH. apply andb_assoc.
Qed.

Lemma without_occurs (c : ascii) (a s : string) :
  occurs a s -> without c s = true -> without c a = true.
Proof.
  intros (before & after & ->) H. rewrite !without_append in H.
  apply andb_true_iff in H as [_ H]. apply andb_true_iff in H as [H _]. exact H.
Qed.

Lemma flat_map_nil {A B : Type} (f : A -> list B) (l : list A) :
  (forall x, In x l -> f x = []) -> flat_map f l = [].
Proof.
  induction l as [|x l IH]; [reflexivity|]. intros H. cbn [flat_map].
  rewrite (H x (or_introl eq_refl)), IH; [reflexivity|].
  intros y Hy. apply H. right. exact Hy.
Qed.

Section QuoteFacts.
Variable rt : Runtime.

(** A block without a double quote gives no file: the ETag pattern wants
    the value between two of them. *)
Lemma parse_content_without_quote (content : string) :
  without dquote content = true -> parse_content rt content = [].
Proof.
  intros Hq. unfold parse_content.
  assert (Hc : String dquote "</ETag>" <> EmptyString) by discriminate.
  destruct (exec_lazy false ("<ETag>" ++ String dquote EmptyString)
              (String dquote "</ETag>") content) as [[e r]|] eqn:E.
  - exfalso. destruct (exec_lazy_occurs _ _ _ _ _ _ Hc E) as [_ Ho].
    revert Ho. apply free_not_occurs; [exact Hc|]. apply free_without. exact Hq.
  - destruct (exec_lazy false "<Key>" "</Key>" content) as [[k r1]|]; [|reflexivity].
    destruct (exec_lazy false "<LastModified>" "</LastModified>" content) as [[lm r2]|];
      [|reflexivity].
    destruct (exec_digits "<Size>" "</Size>" content); reflexivity.
Qed.
End QuoteFacts.

(** X21: from a text without a double-quote character
    [parseS3ListResponse] reads no file, whatever else the text holds: the
    ETag pattern wants the value between two literal double quotes, so a
    listing whose writer puts the quotes of the ETag as the entity quot is
    read as empty. *)
Theorem parseS3ListResponse_needs_literal_quotes (rt : Runtime) (xmlText : string) :
  without dquote xmlText = true ->
  parseS3ListResponse rt xmlText = [].
Proof.
  intros Hq. unfold parseS3ListResponse, exec_all. apply flat_map_nil.
  intros content Hin. apply parse_content_without_quote.
  assert (Hc : "</Contents>" <> EmptyString) by discriminate.
  pose proof (exec_all_from_In _ _ _ _ _ Hc Hin) as Ho.
  assert (Hoc : occurs content ("<Contents>" ++ content ++ "</Contents>")).
  { exists "<Contents>", "</Contents>". reflexivity. }
  exact (without_occurs dquote _ _ (occurs_trans _ _ _ Hoc Ho) Hq).
Qed.

Lemma parseS3ListResponse_needs_literal_quotes_witness :
  occurs "<ETag>&quot;abc123&quot;</ETag>" entity_listing_text
  /\ parseS3ListResponse (listing_runtime None ticking) entity_listing_text = [].
Proof.
  split.
  - eexists (xml_prologue ++ "<Contents><Key>reports/q1.pdf</Key>"
             ++ "<LastModified>2024-01-01T00:00:00.000Z</LastModified>")%string, _.
    vm_compute. reflexivity.
  - apply (parseS3ListResponse_needs_literal_quotes (listing_runtime None ticking)
             entity_listing_text).
    vm_compute. reflexivity.
Defined.

(** ** The public stream *)

Section PublicStreamFacts.
Variable rt : Runtime.

Lemma getS3FileStreamSimple_fetched
    (bucketName k seg : string) (fetched : FetchResponse) (w : World) :
  http_fetch rt (object_url bucketName k) = Return fetched ->
  ok fetched = true ->
  pop (split "/" k) = Some seg ->
  getS3FileStreamSimple rt bucketName k w
    = if header_value seg
      then (Return (mkResponse 200 (pdf_headers seg) (StreamBody (text fetched))),
            mkWorld (ticks w) (calls w ++ [FetchCall (object_url bucketName k)]) (console w))
      else (Throw "Failed to stream file from S3",
            mkWorld (ticks w) (calls w ++ [FetchCall (object_url bucketName k)])
                    (console w ++ ["Error streaming S3 file:"])).
Proof.
  intros Hf Hok Hp.
  unfold getS3FileStreamSimple, try_catch, fetch, bind, record_call, lift.
  rewrite Hf, Hok. cbn [negb].
  rewrite (new_Response_simple_headers _ k seg _ Hp).
  destruct (header_value seg); reflexivity.
Qed.

Lemma getS3FileStreamSimple_refused (bucketName k : string) (w : World) :
  match http_fetch rt (object_url bucketName k) with
  | Return fetched => ok fetched = false
  | Throw _ => True
  end ->
  getS3FileStreamSimple rt bucketName k w
    = (Throw "Failed to stream file from S3",
       mkWorld (ticks w) (calls w ++ [FetchCall (object_url bucketName k)])
               (console w ++ ["Error streaming S3 file:"])).
Proof.
  intros H. unfold getS3FileStreamSimple, try_catch, fetch, bind, record_call, lift.
  destruct (http_fetch rt (object_url bucketName k)) as [fetched|e];
    [rewrite H|]; reflexivity.
Qed.
End PublicStreamFacts.

(** X11: whatever the endpoint answers, [getS3FileStreamSimple] issues
    exactly one call, a fetch of the object's public URL.  When the fetch
    resolves to an ok response and the last piece of the key between
    slashes has no NUL, line feed or carriage return, it returns status
    200 with the response's bytes and exactly three headers, the
    Content-Type, Content-Disposition (with that piece as filename) and
    Cache-Control that [getS3FileStream] sets, and no Content-Length.
    When the piece has such a character, when the fetch throws and when
    the response is not ok, it throws, always with the message Failed to
    stream file from S3. *)
Theorem getS3FileStreamSimple_outcome
    (rt : Runtime) (bucketName k : string) (w : World) :
  let run := getS3FileStreamSimple rt bucketName k w in
  calls (snd run) = calls w ++ [FetchCall (object_url bucketName k)]
  /\ exists seg,
       last_segment k seg
       /\ (forall len, stream_headers k len
                       = pdf_headers seg ++ [("Content-Length",
                                              match len with
                                              | Some n => toString n
                                              | None => EmptyString
                                              end)])
       /\ match http_fetch rt (object_url bucketName k) with
          | Return {| ok := true; fetch_status := _; statusText := _; text := bytes |} =>
              fst run = if header_value seg
                        then Return (mkResponse 200 (pdf_headers seg) (StreamBody bytes))
                        else Throw "Failed to stream file from S3"
          | _ => fst run = Throw "Failed to stream file from S3"
          end.
Proof.
  cbv zeta. destruct (pop_split_last_segment k) as (seg & Hp & Hseg).
  assert (Hh : forall len, stream_headers k len
                           = pdf_headers seg ++ [("Content-Length",
                                                  match len with
                                                  | Some n => toString n
                                                  | None => EmptyString
                                                  end)]).
  { intros len. rewrite (stream_headers_spelled k seg len Hp). reflexivity. }
  destruct (http_fetch rt (object_url bucketName k)) as [[[|] st stt bytes]|e] eqn:Hf.
  - rewrite (getS3FileStreamSimple_fetched rt bucketName k seg _ w Hf eq_refl Hp).
    cbn [text].
    split; [destruct (header_value seg); reflexivity|].
    exists seg. split; [exact Hseg|]. split; [exact Hh|].
    destruct (header_value seg); reflexivity.
  - rewrite (getS3FileStreamSimple_refused rt bucketName k w)
      by (rewrite Hf; reflexivity).
    split; [reflexivity|]. exists seg. auto.
  - rewrite (getS3FileStreamSimple_refused rt bucketName k w)
      by (rewrite Hf; exact I).
    split; [reflexivity|]. exists seg. auto.
Qed.

(** ** Escaping for a URL *)

Lemma encodeURIComponent_cons (c : ascii) (s : string) :
  encodeURIComponent (String c s)
  = (encodeURIComponent (String c EmptyString) ++ encodeURIComponent s)%string.
Proof. cbn [encodeURIComponent]. rewrite append_empty_r. reflexivity. Qed.

Lemma encodeURIComponent_char_safe (c : ascii) :
  uri_safe (encodeURIComponent (String c EmptyString)) = true.
Proof. by_cases_on_char c. Qed.

Lemma uri_safe_append (a b : string) :
  uri_safe a = true -> uri_safe b = true -> uri_safe (a ++ b) = true.
Proof.
  intros Ha Hb. induction a as [|c a IH]; [exact Hb|].
  cbn [uri_safe] in Ha. apply andb_true_iff in Ha as [Hc Ha].
  cbn [append uri_safe]. rewrite Hc, (IH Ha). reflexivity.
Qed.

(** The text [encodeURIComponent] returns holds only letters, digits, the
    marks - _ . ! ~ * ' ( ) and the percent sign; a text of letters,
    digits and those marks is returned as it is. *)
Lemma encodeURIComponent_safe (s : string) :
  uri_safe (encodeURIComponent s) = true
  /\ (all_unreserved s = true -> encodeURIComponent s = s).
Proof.
  split.
  - induction s as [|c s IH]; [reflexivity|].
    rewrite encodeURIComponent_cons.
    apply uri_safe_append; [apply encodeURIComponent_char_safe|exact IH].
  - induction s as [|c s IH]; [reflexivity|]. cbn [all_unreserved encodeURIComponent].
    intros H. apply andb_true_iff in H as [Hc Hs]. rewrite Hc, (IH Hs). reflexivity.
Qed.

(** * Further properties of the route handlers *)

(** X13: the handler of /api/file/list never throws and issues exactly
    one command: a list command for the bucket alba-admin with the prefix
    parameter, none when the parameter is missing or empty.  When the
    store call returns, the answer is 200 with the files [listPDFFiles]
    returns for that prefix and their number as count; when it throws,
    the answer is 500 with body error: Failed to list PDF files. *)
Theorem GET_file_list_outcome (rt : Runtime) (req : Request) (w : World) :
  exists r w',
    GET_file_list rt req w = (Return r, w')
    /\ calls w' = calls w ++ [ListObjectsV2Command "alba-admin"
                                (command_prefix (requested_prefix req))]
    /\ match s3_list rt "alba-admin" (command_prefix (requested_prefix req)) with
       | Return _ =>
           exists files,
             fst (listPDFFiles rt "alba-admin" (requested_prefix req) w) = Return files
             /\ status r = 200
             /\ body r = JsonBody [("files", JFiles files);
                                   ("count", JNumber (Z.of_nat (List.length files)))]
       | Throw _ =>
           status r = 500 /\ body r = error_body "Failed to list PDF files"
       end.
Proof.
  assert (Hp : match searchParams_get "prefix" (searchParams req) with
               | Some p => if truthy p then p else EmptyString
               | None => EmptyString
               end = requested_prefix req).
  { unfold requested_prefix.
    destruct (searchParams_get "prefix" (searchParams req)) as [[|c p]|]; reflexivity. }
  unfold GET_file_list, try_catch, bind. rewrite Hp.
  destruct (s3_list rt "alba-admin" (command_prefix (requested_prefix req)))
    as [response|e] eqn:Hs.
  - destruct (listPDFFiles_answered rt "alba-admin" (requested_prefix req) response w Hs)
      as (files & w' & E & _ & Hc & _).
    rewrite E. eexists _, _. split; [reflexivity|]. split; [exact Hc|].
    eexists. simpl. auto.
  - rewrite (listPDFFiles_failed rt "alba-admin" (requested_prefix req) e w Hs).
    eexists _, _. split; [reflexivity|]. simpl. auto.
Qed.

(** X14: the handler of /api/file/get never throws.  Without a key, or
    with the empty key, it answers 400 and issues no call.  With any other
    key it issues exactly one command, a get for that key in the bucket
    alba-admin.  When the store answers with a body and the last piece of
    the key between slashes has no NUL, line feed or carriage return, the
    answer is the response of [getS3FileStream], status 200 with the
    body's bytes as they are; when the piece has such a character, and
    when the store has nothing to stream, it is 500 with body error:
    Failed to get PDF file. *)
Theorem GET_file_get_outcome (rt : Runtime) (req : Request) (w : World) :
  exists r w',
    GET_file_get rt req w = (Return r, w')
    /\ match searchParams_get "key" (searchParams req) with
       | None | Some EmptyString =>
           status r = 400 /\ calls w' = calls w
       | Some k =>
           calls w' = calls w ++ [GetObjectCommand "alba-admin" k]
           /\ exists seg,
                last_segment k seg
                /\ match s3_get rt "alba-admin" k with
                   | Return {| Body := Some stream; ContentLength := len |} =>
                       if header_value seg
                       then r = mkResponse 200 (stream_headers k len) (StreamBody stream)
                       else status r = 500 /\ body r = error_body "Failed to get PDF file"
                   | _ =>
                       status r = 500 /\ body r = error_body "Failed to get PDF file"
                   end
       end.
Proof.
  destruct (searchParams_get "key" (searchParams req)) as [[|c k]|] eqn:Hk.
  - eexists _, w. unfold GET_file_get, try_catch. rewrite Hk. simpl. auto.
  - rewrite (GET_file_get_calls_service rt req _ w Hk eq_refl).
    destruct (pop_split_last_segment (String c k)) as (seg & Hp & Hseg).
    unfold try_catch.
    destruct (s3_get rt "alba-admin" (String c k)) as [[[stream|] len]|e] eqn:Hs.
    + rewrite (getS3FileStream_streamed rt "alba-admin" _ seg stream _ w Hs eq_refl Hp).
      cbn [ContentLength].
      destruct (header_value seg) eqn:Hh; eexists _, _; (split; [reflexivity|]);
        (split; [reflexivity|]); exists seg; (split; [exact Hseg|]); rewrite Hh;
        simpl; auto.
    + rewrite (getS3FileStream_failed rt "alba-admin" _ w)
        by (unfold no_body; rewrite Hs; reflexivity).
      eexists _, _. split; [reflexivity|]. split; [reflexivity|].
      exists seg. split; [exact Hseg|]. simpl. auto.
    + rewrite (getS3FileStream_failed rt "alba-admin" _ w)
        by (unfold no_body; rewrite Hs; exact I).
      eexists _, _. split; [reflexivity|]. split; [reflexivity|].
      exists seg. split; [exact Hseg|]. simpl. auto.
  - eexists _, w. unfold GET_file_get, try_catch. rewrite Hk. simpl. auto.
Qed.

(** A request whose key has a line feed in its file name: the store has
    the object, [getS3FileStream] fails all the same, and the handler
    answers 500. *)
Example GET_file_get_line_feed_key :
  request_of "/api/file/get?key=docs%2Fa%0Ab.pdf" = Some (GET [("key", line_feed_key)])
  /\ fst (getS3FileStream unsized_runtime "alba-admin" line_feed_key initial_world)
     = Throw "Failed to stream file from S3"
  /\ fst (GET_file_get unsized_runtime (GET [("key", line_feed_key)]) initial_world)
     = Return (Response_json [("error", JString "Failed to get PDF file")] 500).
Proof.
  split; [vm_compute; reflexivity|]. split; vm_compute; reflexivity.
Qed.

(** * Properties of the browser UI *)

(** ** File names *)

Lemma getFileName_piece (k : string) :
  exists piece,
    last_segment k piece
    /\ UI.getFileName k = if truthy piece then piece else k.
Proof.
  destruct (pop_split_last_segment k) as (piece & Hp & Hseg).
  exists piece. split; [exact Hseg|]. unfold UI.getFileName. rewrite Hp. reflexivity.
Qed.

Lemma getFileName_suffix (k : string) :
  exists dir, k = (dir ++ UI.getFileName k)%string.
Proof.
  destruct (getFileName_piece k) as (piece & (_ & Hk) & ->).
  destruct piece as [|c piece]; cbn [truthy]; [exists EmptyString; reflexivity|].
  destruct Hk as [->|[dir ->]]; [exists EmptyString; reflexivity|].
  exists (dir ++ "/")%string. rewrite append_assoc. reflexivity.
Qed.

Lemma without_slash_inside (a b : string) :
  without "/" (a ++ String "/" b) = false.
Proof.
  induction a as [|c a IH]; [reflexivity|]. cbn [append without].
  rewrite IH. apply andb_false_r.
Qed.

Lemma last_piece_unique (d1 d2 p1 p2 : string) :
  without "/" p1 = true -> without "/" p2 = true ->
  (d1 ++ String "/" p1)%string = (d2 ++ String "/" p2)%string -> p1 = p2.
Proof.
  intros H1 H2. revert d2. induction d1 as [|c d1 IH]; intros [|c' d2] E;
    cbn [append] in E.
  - injection E as E. exact E.
  - injection E as _ E. rewrite E, without_slash_inside in H1. discriminate.
  - injection E as _ E. rewrite <- E, without_slash_inside in H2. discriminate.
  - injection E as _ E. exact (IH d2 E).
Qed.

(** A key has one last piece. *)
Lemma last_segment_unique (k p1 p2 : string) :
  last_segment k p1 -> last_segment k p2 -> p1 = p2.
Proof.
  intros [H1 [E1|[d1 E1]]] [H2 [E2|[d2 E2]]].
  - congruence.
  - rewrite <- E1, E2, without_slash_inside in H1. discriminate.
  - rewrite <- E2, E1, without_slash_inside in H2. discriminate.
  - rewrite E1 in E2. exact (last_piece_unique d1 d2 p1 p2 H1 H2 E2).
Qed.

(** X15: the name [getFileName] shows for a key is the last piece of the
    key between slashes, the text after the last slash or the whole key
    when it has none; when that piece is empty, the key ending with a
    slash or being empty, it is the whole key. *)
Theorem getFileName_is_the_end_of_the_key (k piece : string) :
  last_segment k piece ->
  UI.getFileName k = if truthy piece then piece else k.
Proof.
  intros Hseg. destruct (getFileName_piece k) as (piece' & Hseg' & ->).
  rewrite (last_segment_unique k piece' piece Hseg' Hseg). reflexivity.
Qed.

Lemma getFileName_is_the_end_of_the_key_witness :
  UI.getFileName "reports/2024/q1.pdf" = "q1.pdf"
  /\ UI.getFileName "reports/2024/" = "reports/2024/".
Proof.
  split.
  - refine (getFileName_is_the_end_of_the_key "reports/2024/q1.pdf" "q1.pdf" _).
    split; [reflexivity|]. right. exists "reports/2024". reflexivity.
  - refine (getFileName_is_the_end_of_the_key "reports/2024/" EmptyString _).
    split; [reflexivity|]. right. exists "reports/2024". reflexivity.
Defined.

(** ** The search box *)

Lemma includes_unfold (s q : string) :
  includes s q
  = String.prefix q s
    || match s with
       | EmptyString => false
       | String _ s' => includes s' q
       end.
Proof. destruct s; reflexivity. Qed.

Lemma includes_occurs (s q : string) : includes s q = true <-> occurs q s.
Proof.
  split.
  - induction s as [|c s IH]; rewrite includes_unfold; intros H;
      apply orb_true_iff in H as [H|H]; try discriminate.
    + exists EmptyString, (drop (String.length q) EmptyString). apply (prefix_split _ _ H).
    + exists EmptyString, (drop (String.length q) (String c s)). apply (prefix_split _ _ H).
    + destruct (IH H) as (a & b & ->). exists (String c a), b. reflexivity.
  - intros (a & b & ->). induction a as [|c a IH]; rewrite includes_unfold.
    + cbn [append]. rewrite prefix_append. reflexivity.
    + cbn [append]. rewrite IH. apply orb_true_r.
Qed.

Lemma toLowerCase_append (a b : string) :
  toLowerCase (a ++ b) = (toLowerCase a ++ toLowerCase b)%string.
Proof. induction a as [|c a IH]; cbn [append toLowerCase]; [|rewrite IH]; reflexivity. Qed.

Lemma lower_char_idempotent (c : ascii) : lower_char (lower_char c) = lower_char c.
Proof. by_cases_on_char c. Qed.

Lemma toLowerCase_idempotent (s : string) : toLowerCase (toLowerCase s) = toLowerCase s.
Proof.
  induction s as [|c s IH]; [reflexivity|].
  cbn [toLowerCase]. rewrite lower_char_idempotent, IH. reflexivity.
Qed.

Lemma includes_empty (s : string) : includes s EmptyString = true.
Proof. rewrite includes_unfold. destruct s; reflexivity. Qed.

Lemma matches_key (q : string) (f : S3File) :
  UI.matches q f = includes (toLowerCase (key f)) (toLowerCase q).
Proof.
  unfold UI.matches.
  destruct (includes (toLowerCase (UI.getFileName (key f))) (toLowerCase q)) eqn:Hn;
    [|reflexivity].
  destruct (getFileName_suffix (key f)) as [dir Hd].
  symmetry. apply includes_occurs. apply includes_occurs in Hn.
  rewrite Hd at 1. rewrite toLowerCase_append.
  rewrite <- (append_empty_r (toLowerCase (UI.getFileName (key f)))).
  apply occurs_inside. exact Hn.
Qed.

(** X16: the search box filters on the key alone: a file is shown when
    the query, letter case aside, stands in its key; the test on the file
    name never adds a file, because the name is part of the key.  The
    empty query shows every file, and a query and its lower-case form show
    the same files. *)
Theorem filteredFiles_by_key (files : list S3File) (q : string) :
  UI.filteredFiles files q
    = filter (fun f => includes (toLowerCase (key f)) (toLowerCase q)) files
  /\ UI.filteredFiles files EmptyString = files
  /\ UI.filteredFiles files (toLowerCase q) = UI.filteredFiles files q.
Proof.
  unfold UI.filteredFiles. split; [|split].
  - apply filter_ext. intros f. apply matches_key.
  - induction files as [|f files IH]; [reflexivity|].
    cbn [filter]. rewrite matches_key. cbn [toLowerCase].
    rewrite includes_empty, IH. reflexivity.
  - apply filter_ext. intros f. rewrite !matches_key, toLowerCase_idempotent. reflexivity.
Qed.

(** ** Sizes *)

Lemma toFixed1_nearest (num den : Z) :
  0 < den ->
  let n := (20 * num + den) / (2 * den) in
  - den <= 20 * num - 2 * n * den < den.
Proof.
  intros Hden n. subst n.
  pose proof (Z.div_mod (20 * num + den) (2 * den) ltac:(lia)) as Hdm.
  pose proof (Z.mod_pos_bound (20 * num + den) (2 * den) ltac:(lia)) as Hm.
  lia.
Qed.

Lemma toFixed1_at_least_one (num den : Z) :
  0 < den -> den <= num -> 10 <= (20 * num + den) / (2 * den).
Proof.
  intros Hden Hle. apply Z.div_le_lower_bound; lia.
Qed.

Lemma toFixed1_below (num den : Z) :
  0 < den -> num < 1024 * den -> (20 * num + den) / (2 * den) <= 10240.
Proof.
  intros Hden Hlt.
  assert ((20 * num + den) / (2 * den) < 10241); [|lia].
  apply Z.div_lt_upper_bound; lia.
Qed.

(** X17: for a size that is not negative, [formatFileSize] shows the
    bytes themselves below 1024 and otherwise a number with one decimal
    in the largest of the units KB, MB and GB that the size reaches; the
    number, in tenths, is the nearest to the size in that unit (it is off
    by at most half a tenth), it is never below 1.0, and in KB and MB it
    can reach 1024.0 but not pass it. *)
Theorem formatFileSize_nearest_tenth (bytes : Z) :
  0 <= bytes ->
  (bytes < 1024 /\ UI.formatFileSize bytes = (toString bytes ++ " B")%string)
  \/ exists n unit name,
       In (unit, name) [(1024, "KB"); (1024 * 1024, "MB"); (1024 * 1024 * 1024, "GB")]
       /\ UI.formatFileSize bytes
          = ((toString (n / 10) ++ "." ++ toString (n mod 10)) ++ " " ++ name)%string
       /\ unit <= bytes
       /\ (name <> "GB" -> bytes < 1024 * unit /\ n <= 10240)
       /\ - unit <= 20 * bytes - 2 * n * unit < unit
       /\ 10 <= n.
Proof.
  intros Hb. unfold UI.formatFileSize, toFixed1.
  destruct (Z.ltb_spec bytes 1024) as [H1|H1]; [left; auto|right].
  destruct (Z.ltb_spec bytes (1024 * 1024)) as [H2|H2].
  { exists ((20 * bytes + 1024) / (2 * 1024)), 1024, "KB".
    split; [simpl; auto|]. split; [reflexivity|]. split; [exact H1|].
    split; [intros _; split; [lia|apply toFixed1_below; lia]|].
    split; [apply toFixed1_nearest; lia|apply toFixed1_at_least_one; lia]. }
  destruct (Z.ltb_spec bytes (1024 * 1024 * 1024)) as [H3|H3].
  { exists ((20 * bytes + 1024 * 1024) / (2 * (1024 * 1024))), (1024 * 1024), "MB".
    split; [simpl; auto|]. split; [reflexivity|]. split; [exact H2|].
    split; [intros _; split; [lia|apply toFixed1_below; lia]|].
    split; [apply toFixed1_nearest; lia|apply toFixed1_at_least_one; lia]. }
  exists ((20 * bytes + 1024 * 1024 * 1024) / (2 * (1024 * 1024 * 1024))),
         (1024 * 1024 * 1024), "GB".
  split; [simpl; auto|]. split; [reflexivity|]. split; [exact H3|].
  split; [intros H; contradiction H; reflexivity|].
  split; [apply toFixed1_nearest; lia|apply toFixed1_at_least_one; lia].
Qed.

Lemma formatFileSize_nearest_tenth_witness :
  (1048575 < 1024 /\ UI.formatFileSize 1048575 = (toString 1048575 ++ " B")%string)
  \/ exists n unit name,
       In (unit, name) [(1024, "KB"); (1024 * 1024, "MB"); (1024 * 1024 * 1024, "GB")]
       /\ UI.formatFileSize 1048575
          = ((toString (n / 10) ++ "." ++ toString (n mod 10)) ++ " " ++ name)%string
       /\ unit <= 1048575
       /\ (name <> "GB" -> 1048575 < 1024 * unit /\ n <= 10240)
       /\ - unit <= 20 * 1048575 - 2 * n * unit < unit
       /\ 10 <= n.
Proof.
  apply (formatFileSize_nearest_tenth 1048575). lia.
Defined.

(** * From the UI to the store *)

Lemma form_decode_encoded_char (c : ascii) (t : string) :
  form_decode (encodeURIComponent (String c EmptyString) ++ t)
  = decoded c (form_decode t).
Proof.
  destruct c as [[|] [|] [|] [|] [|] [|] [|] [|]]; reflexivity.
Qed.

(** The server's decoding reads back what [encodeURIComponent] wrote. *)
Lemma form_decode_encodeURIComponent (s : string) :
  form_decode (encodeURIComponent s) = Some s.
Proof.
  induction s as [|c s IH]; [reflexivity|].
  rewrite encodeURIComponent_cons, form_decode_encoded_char, IH. reflexivity.
Qed.

Lemma uri_safe_without (c : ascii) (s : string) :
  uri_unreserved c || Ascii.eqb c "%" = false ->
  uri_safe s = true -> without c s = true.
Proof.
  intros Hc. induction s as [|d s IH]; [reflexivity|]. cbn [uri_safe without].
  intros H. apply andb_true_iff in H as [Hd Hs]. rewrite (IH Hs).
  destruct (Ascii.eqb_spec d c) as [->|]; [congruence|reflexivity].
Qed.

Lemma split_without (sep : ascii) (s : string) :
  without sep s = true -> split sep s = [s].
Proof.
  induction s as [|c s IH]; [reflexivity|]. cbn [without split].
  intros H. apply andb_true_iff in H as [Hc Hs]. apply negb_true_iff in Hc.
  rewrite Hc, (IH Hs). reflexivity.
Qed.

Lemma cut_at_without (c : ascii) (s : string) :
  without c s = true -> cut_at c s = None.
Proof.
  induction s as [|d s IH]; [reflexivity|]. cbn [without cut_at].
  intros H. apply andb_true_iff in H as [Hd Hs]. apply negb_true_iff in Hd.
  rewrite Hd, (IH Hs). reflexivity.
Qed.

(** A query of one name, written as it is, and one encoded value is read
    as that name with the value. *)
Lemma URLSearchParams_one (name value : string) :
  truthy name = true -> all_unreserved name = true ->
  URLSearchParams (name ++ String "=" (encodeURIComponent value))
  = Some [(name, value)].
Proof.
  intros Hne Hname.
  assert (Hsafe : uri_safe (encodeURIComponent value) = true).
  { induction value as [|c v IH]; [reflexivity|]. rewrite encodeURIComponent_cons.
    apply uri_safe_append; [apply encodeURIComponent_char_safe|exact IH]. }
  assert (Hnsafe : uri_safe name = true).
  { clear Hne. induction name as [|c n IH]; [reflexivity|]. cbn [all_unreserved] in Hname.
    apply andb_true_iff in Hname as [Hc Hn]. cbn [uri_safe]. rewrite Hc, (IH Hn). reflexivity. }
  assert (Hcut : cut_at "=" (name ++ String "=" (encodeURIComponent value))
                 = Some (name, encodeURIComponent value)).
  { pose proof (uri_safe_without "=" name eq_refl Hnsafe) as Hw. clear -Hw.
    induction name as [|c n IH]; [reflexivity|]. cbn [without] in Hw.
    apply andb_true_iff in Hw as [Hc Hn]. apply negb_true_iff in Hc.
    cbn [append cut_at]. rewrite Hc, (IH Hn). reflexivity. }
  assert (Hname' : form_decode name = Some name).
  { rewrite <- (form_decode_encodeURIComponent name) at 1. f_equal. symmetry.
    clear -Hname. induction name as [|c n IH]; [reflexivity|].
    cbn [all_unreserved] in Hname. apply andb_true_iff in Hname as [Hc Hn].
    cbn [encodeURIComponent]. rewrite Hc, (IH Hn). reflexivity. }
  unfold URLSearchParams. rewrite split_without.
  - cbn [parse_pairs]. rewrite truthy_append_r by reflexivity.
    unfold parse_pair. rewrite Hcut, Hname', form_decode_encodeURIComponent. reflexivity.
  - rewrite without_append. cbn [without].
    rewrite (uri_safe_without "&" name eq_refl Hnsafe).
    rewrite (uri_safe_without "&" _ eq_refl Hsafe). reflexivity.
Qed.

Section HandlerCalls.
Variable rt : Runtime.

Lemma GET_file_get_calls (req : Request) (w : World) :
  calls (snd (GET_file_get rt req w))
  = calls w ++ match searchParams_get "key" (searchParams req) with
               | Some k => if truthy k then [GetObjectCommand "alba-admin" k] else []
               | None => []
               end.
Proof.
  destruct (searchParams_get "key" (searchParams req)) as [[|c k]|] eqn:Hk.
  - unfold GET_file_get, try_catch. rewrite Hk. simpl. symmetry. apply app_nil_r.
  - rewrite (GET_file_get_calls_service rt req _ w Hk eq_refl).
    destruct (pop_split_last_segment (String c k)) as (seg & Hp & _).
    unfold try_catch.
    destruct (s3_get rt "alba-admin" (String c k)) as [[[stream|] len]|e] eqn:Hs.
    + rewrite (getS3FileStream_streamed rt "alba-admin" _ seg stream _ w Hs eq_refl Hp).
      destruct (header_value seg); reflexivity.
    + rewrite (getS3FileStream_failed rt "alba-admin" _ w)
        by (unfold no_body; rewrite Hs; reflexivity).
      reflexivity.
    + rewrite (getS3FileStream_failed rt "alba-admin" _ w)
        by (unfold no_body; rewrite Hs; exact I).
      reflexivity.
  - unfold GET_file_get, try_catch. rewrite Hk. simpl. symmetry. apply app_nil_r.
Qed.

Lemma GET_file_list_calls (req : Request) (w : World) :
  calls (snd (GET_file_list rt req w))
  = calls w ++ [ListObjectsV2Command "alba-admin" (command_prefix (requested_prefix req))].
Proof.
  assert (Hp : match searchParams_get "prefix" (searchParams req) with
               | Some p => if truthy p then p else EmptyString
               | None => EmptyString
               end = requested_prefix req).
  { unfold requested_prefix.
    destruct (searchParams_get "prefix" (searchParams req)) as [[|c p]|]; reflexivity. }
  unfold GET_file_list, try_catch, bind. rewrite Hp.
  destruct (s3_list rt "alba-admin" (command_prefix (requested_prefix req)))
    as [response|e] eqn:Hs.
  - destruct (listPDFFiles_answered rt "alba-admin" (requested_prefix req) response w Hs)
      as (files & w' & E & _ & Hc & _).
    rewrite E. exact Hc.
  - rewrite (listPDFFiles_failed rt "alba-admin" (requested_prefix req) e w Hs). reflexivity.
Qed.
End HandlerCalls.

(** X12: in the URLs the public functions fetch, the prefix and the key
    are escaped: the list URL is the bucket's endpoint with list-type=2
    and, for a prefix that is not empty, one prefix parameter; the object
    URL is the endpoint with one path piece.  The escaped text holds only
    letters, digits, the marks - _ . ! ~ * ' ( ) and percent escapes, so
    no ampersand, equals sign or slash of the prefix or key cuts the URL,
    and percent-decoding it gives the prefix or key back. *)
Theorem public_urls_escaped (bucketName p k : string) :
  (exists e,
     list_url bucketName p
       = ("https://" ++ bucketName ++ ".s3.amazonaws.com/?list-type=2"
          ++ (if truthy p then "&prefix=" ++ e else EmptyString))%string
     /\ uri_safe e = true /\ without "&" e = true /\ without "=" e = true
     /\ form_decode e = Some p)
  /\ (exists e,
        object_url bucketName k
          = ("https://" ++ bucketName ++ ".s3.amazonaws.com/" ++ e)%string
        /\ uri_safe e = true /\ without "/" e = true /\ without "?" e = true
        /\ form_decode e = Some k).
Proof.
  split.
  - exists (encodeURIComponent p). destruct (encodeURIComponent_safe p) as [Hs _].
    split; [reflexivity|]. split; [exact Hs|].
    split; [apply uri_safe_without; [reflexivity|exact Hs]|].
    split; [apply uri_safe_without; [reflexivity|exact Hs]|].
    apply form_decode_encodeURIComponent.
  - exists (encodeURIComponent k). destruct (encodeURIComponent_safe k) as [Hs _].
    split; [reflexivity|]. split; [exact Hs|].
    split; [apply uri_safe_without; [reflexivity|exact Hs]|].
    split; [apply uri_safe_without; [reflexivity|exact Hs]|].
    apply form_decode_encodeURIComponent.
Qed.

(** X18: the URL [handleDownload] opens for a key has the path of the
    get handler and, as the server reads it, the one parameter key with
    that very key, whatever characters the key holds; so for a key that is
    not empty the handler issues a get command for exactly that key in the
    bucket alba-admin, and no other call. *)
Theorem download_url_reaches_the_store (k : string) (rt : Runtime) (w : World) :
  pathname_of (UI.download_url k) = "/api/file/get"
  /\ request_of (UI.download_url k) = Some (mkRequest [("key", k)])
  /\ calls (snd (GET_file_get rt (mkRequest [("key", k)]) w))
     = calls w ++ (if truthy k then [GetObjectCommand "alba-admin" k] else []).
Proof.
  split; [reflexivity|]. split.
  - unfold request_of, UI.download_url.
    change (query_of ("/api/file/get?key=" ++ encodeURIComponent k))
      with ("key" ++ String "=" (encodeURIComponent k))%string.
    rewrite URLSearchParams_one by reflexivity. reflexivity.
  - rewrite GET_file_get_calls. reflexivity.
Qed.

(** X19: the URL [fetchFiles] fetches for a prefix has the path of the
    list handler and, as the server reads it, asks for that very prefix,
    whatever characters it holds (no parameter at all for the empty
    prefix); so the handler issues one list command for the bucket
    alba-admin with that prefix, none for the empty one. *)
Theorem list_request_url_reaches_the_store (p : string) (rt : Runtime) (w : World) :
  pathname_of (UI.list_request_url p) = "/api/file/list"
  /\ exists req,
       request_of (UI.list_request_url p) = Some req
       /\ requested_prefix req = p
       /\ calls (snd (GET_file_list rt req w))
          = calls w ++ [ListObjectsV2Command "alba-admin"
                          (match p with EmptyString => None | _ => Some p end)].
Proof.
  destruct p as [|c p].
  - split; [reflexivity|]. exists (mkRequest []). split; [reflexivity|].
    split; [reflexivity|]. rewrite GET_file_list_calls. reflexivity.
  - split; [reflexivity|]. exists (mkRequest [("prefix", String c p)]). split.
    + unfold request_of, UI.list_request_url. cbn [truthy].
      change (query_of ("/api/file/list" ++ "?prefix=" ++ encodeURIComponent (String c p)))
        with ("prefix" ++ String "=" (encodeURIComponent (String c p)))%string.
      rewrite URLSearchParams_one by reflexivity. reflexivity.
    + split; [reflexivity|]. rewrite GET_file_list_calls. reflexivity.
Qed.

(** ** The state of the component *)

(** X20: when [fetchFiles] has settled, whatever the fetch came to, the
    component is no longer loading and its prefix, its search text and its
    selection are what they were: a fetch never clears or changes the
    selected key.  After an ok response that is read as a list, the files
    are those of the response and no error is shown; in every other case
    the files are kept and an error is shown. *)
Theorem fetchFiles_settles (st : UI.State) (reply : Outcome UI.ListReply) :
  let st' := UI.fetchFiles_settled st reply in
  UI.loading st' = false
  /\ UI.selectedFile st' = UI.selectedFile st
  /\ UI.prefix st' = UI.prefix st
  /\ UI.searchQuery st' = UI.searchQuery st
  /\ match reply with
     | Return {| UI.reply_ok := true; UI.reply_status := _; UI.reply_files := Return fs |} =>
         UI.files st' = fs /\ UI.error st' = None
     | _ => UI.files st' = UI.files st /\ exists message, UI.error st' = Some message
     end.
Proof.
  cbv zeta. unfold UI.fetchFiles_settled.
  destruct reply as [[[|] status [fs|message]]|message]; simpl; repeat split; eauto.
Qed.
